(** * k6 load-test utility library: a shallow embedding and its properties

    The development embeds five JavaScript modules of the repository,

    - [TokenManager]        (lib/auth/tokenManager.js),
    - [CsvManager]          (lib/data/csvManager.js),
    - [CorrelationManager]  (lib/correlation/correlationManager.js),
    - [Validators]          (lib/validation/validators.js),
    - [ErrorLogger]         (lib/errors/errorLogger.js),

    as Rocq functions over an explicit model of the JavaScript values and of
    the k6 host they run on, and then states the behaviour of the library as
    theorems about those functions.

    Conventions of the embedding.

    - JavaScript numbers are modelled by [Z]: timestamps are integral
      milliseconds, HTTP statuses, VU ids and iteration counters are
      integers, all far below 2^53, where double arithmetic on integers is
      exact.  The one non-integral constant of the code, [0.8], is only ever
      multiplied with a multiple of 1000; the double nearest to 0.8 exceeds
      it by a relative 2^-54, strictly less than half a unit in the last
      place of any double, so the rounded product is the exact integer
      [x * 8 / 10].
    - Strings are [string]; a character stands for a UTF-16 code unit.
    - A plain object used as a dictionary is a finite map ([gmap]) when only
      lookups matter and an insertion-ordered association list ([Js.entries]
      gives the enumeration order of the engine) when it is iterated.  Both
      hold the own properties.  What an object inherits is known by name
      ([Js.Object_prototype], [Js.Array_prototype]): the operator [in] and
      the reads of the library's own dictionaries see these names; the
      inherited members themselves are functions and objects of the
      standard library, which [Js.Value] does not represent, so that
      [Js.get_prop] is faithful on the names a value does not inherit.
    - [Number.prototype.toString] prints the safe integers, up to 2^53 - 1
      in magnitude, by their decimal digits, as [Js.to_string] does;
      [Js.safe] says that a value holds no other number.
    - Module-level variables become fields of a per-module [State] record,
      threaded through a state-and-exception monad [M].

    The file has three parts: the embedding (one module per source file),
    the vocabulary and the scenarios the statements use ([...Spec]), and
    the lemmas and theorems ([...Facts]). *)

From Stdlib Require Import Ascii.
From stdpp Require Import base numbers list strings gmap pretty.

Set Warnings "-register-all".

(* ===================================================================== *)
(** * JavaScript values and the string primitives the library uses        *)
(* ===================================================================== *)

Module Js.

(** Values as [JSON.parse] produces them, plus [undefined]. *)
Inductive Value : Type :=
| VUndefined
| VNull
| VBool (b : bool)
| VNum (n : Z)
| VStr (s : string)
| VArr (items : list Value)
| VObj (fields : list (string * Value)).

(** Exceptions the modelled code can raise or observe. *)
Inductive Exception : Type :=
| TypeError (detail : string)
| Error (message : string).

Definition message_of (e : Exception) : string :=
  match e with TypeError m => m | Error m => m end.

(** [v === null || v === undefined] *)
Definition is_nullish (v : Value) : bool :=
  match v with VUndefined | VNull => true | _ => false end.

(** A parameter or destructuring default [= null]: it replaces
    [undefined], and nothing else. *)
Definition default_null (v : Value) : Value :=
  match v with VUndefined => VNull | d => d end.

(** ToBoolean, as used by [if (v)] and [!v]. *)
Definition truthy (v : Value) : bool :=
  match v with
  | VUndefined | VNull => false
  | VBool b => b
  | VNum n => negb (n =? 0)%Z
  | VStr s => negb (String.eqb s "")
  | VArr _ | VObj _ => true
  end.

(** [typeof v] *)
Definition typeof (v : Value) : string :=
  match v with
  | VUndefined => "undefined"
  | VNull | VArr _ | VObj _ => "object"
  | VBool _ => "boolean"
  | VNum _ => "number"
  | VStr _ => "string"
  end.

(** [Array.isArray(v)] *)
Definition isArray (v : Value) : bool :=
  match v with VArr _ => true | _ => false end.

(** ** Characters and decimal numerals *)

Definition is_digit (c : ascii) : bool :=
  match Ascii.is_nat c with Some _ => true | None => false end.

(** The class [\w] of regular expressions: [A-Za-z0-9_]. *)
Definition is_word (c : ascii) : bool :=
  let n := N_of_ascii c in
  ((65 <=? n) && (n <=? 90) || (97 <=? n) && (n <=? 122))%N
  || is_digit c || Ascii.eqb c "_".

Fixpoint parse_digits (acc : N) (s : string) : option N :=
  match s with
  | "" => Some acc
  | String c s' =>
      match Ascii.is_nat c with
      | Some d => parse_digits (acc * 10 + N.of_nat d) s'
      | None => None
      end
  end.

(** A property key is an array index when it is the canonical decimal
    numeral of an integer below 2^32 - 1. *)
Definition array_index (key : string) : option N :=
  match key with
  | "" => None
  | String "0" "" => Some 0%N
  | String "0" _ => None
  | _ =>
      match parse_digits 0 key with
      | Some n => if (n <? 2 ^ 32 - 1)%N then Some n else None
      | None => None
      end
  end.

(** ** Plain objects as insertion-ordered association lists *)

Fixpoint obj_get {A} (k : string) (o : list (string * A)) : option A :=
  match o with
  | [] => None
  | (k', v) :: o' => if String.eqb k k' then Some v else obj_get k o'
  end.

(** [o[k] = v]: an existing key keeps its position, a new key goes last. *)
Fixpoint obj_set {A} (k : string) (v : A) (o : list (string * A))
  : list (string * A) :=
  match o with
  | [] => [(k, v)]
  | (k', v') :: o' =>
      if String.eqb k k' then (k, v) :: o' else (k', v') :: obj_set k v o'
  end.

Fixpoint insert_index {A} (n : N) (kv : string * A)
    (l : list (N * (string * A))) : list (N * (string * A)) :=
  match l with
  | [] => [(n, kv)]
  | (m, kv') :: l' =>
      if (n <? m)%N then (n, kv) :: l else (m, kv') :: insert_index n kv l'
  end.

Fixpoint index_entries {A} (o : list (string * A)) : list (N * (string * A)) :=
  match o with
  | [] => []
  | (k, v) :: o' =>
      match array_index k with
      | Some n => insert_index n (k, v) (index_entries o')
      | None => index_entries o'
      end
  end.

Definition is_index_key {A} (kv : string * A) : bool :=
  match array_index kv.1 with Some _ => true | None => false end.

(** [Object.entries(o)]: array-index keys first, in ascending numeric order,
    then the remaining keys in insertion order. *)
Definition entries {A} (o : list (string * A)) : list (string * A) :=
  map snd (index_entries o) ++ List.filter (fun kv => negb (is_index_key kv)) o.

(** ** What objects inherit *)

(** The names every plain object inherits from [Object.prototype]: the
    constructor, the six methods, the accessor [__proto__] and the four
    accessor helpers of Annex B. *)
Definition Object_prototype : list string :=
  ["constructor"; "hasOwnProperty"; "isPrototypeOf"; "propertyIsEnumerable";
   "toLocaleString"; "toString"; "valueOf"; "__proto__";
   "__defineGetter__"; "__defineSetter__"; "__lookupGetter__";
   "__lookupSetter__"].

(** The methods an array has from [Array.prototype], before those of
    [Object.prototype]. *)
Definition Array_prototype : list string :=
  ["at"; "concat"; "copyWithin"; "entries"; "every"; "fill"; "filter";
   "find"; "findIndex"; "findLast"; "findLastIndex"; "flat"; "flatMap";
   "forEach"; "includes"; "indexOf"; "join"; "keys"; "lastIndexOf"; "map";
   "pop"; "push"; "reduce"; "reduceRight"; "reverse"; "shift"; "slice";
   "some"; "sort"; "splice"; "toReversed"; "toSorted"; "toSpliced";
   "unshift"; "values"; "with"].

(** [key] names a member of [Object.prototype]. *)
Definition inherited (key : string) : bool :=
  bool_decide (key ∈ Object_prototype).

(** [key] names no member of [Object.prototype] and none of
    [Array.prototype]: a plain object or an array has a member under an
    ordinary key only if it owns one. *)
Definition ordinary (key : string) : bool :=
  negb (inherited key) && negb (bool_decide (key ∈ Array_prototype)).

(** [o[k] = v] for a primitive [v] on an object that has [Object.prototype]
    as its prototype: under [__proto__] the assignment reaches the setter
    of the accessor, which ignores a value that is neither an object nor
    [null], so that no property is created. *)
Definition obj_set_primitive {A} (k : string) (v : A) (o : list (string * A))
  : list (string * A) :=
  if String.eqb k "__proto__" then o else obj_set k v o.

(** ** Strings *)

Fixpoint string_drop (n : nat) (s : string) : string :=
  match n, s with
  | O, _ => s
  | S n', String _ s' => string_drop n' s'
  | S _, "" => ""
  end.

(** [s.split(sep)] for a one-character separator. *)
Fixpoint split (sep : ascii) (s : string) : list string :=
  match s with
  | "" => [""]
  | String c s' =>
      if Ascii.eqb c sep then "" :: split sep s'
      else match split sep s' with
           | h :: t => String c h :: t
           | [] => [String c ""]
           end
  end.

(** [s.includes(text)] *)
Fixpoint includes (text s : string) : bool :=
  String.prefix text s
  || match s with "" => false | String _ s' => includes text s' end.

(** First occurrence of [pat] in [s]: the text before it and after it. *)
Fixpoint find (pat s : string) : option (string * string) :=
  if String.prefix pat s then Some ("", string_drop (String.length pat) s)
  else match s with
       | "" => None
       | String c s' =>
           match find pat s' with
           | Some (before, after) => Some (String c before, after)
           | None => None
           end
       end.

(** GetSubstitution for a string pattern (no capture groups): [$$], [$&],
    [$`] and [$'] are expanded, every other character is literal. *)
Fixpoint get_substitution (matched before after rep : string) : string :=
  match rep with
  | "" => ""
  | String "$" (String "$" r) =>
      String "$" (get_substitution matched before after r)
  | String "$" (String "&" r) =>
      matched +:+ get_substitution matched before after r
  | String "$" (String "`" r) =>
      before +:+ get_substitution matched before after r
  | String "$" (String "'" r) =>
      after +:+ get_substitution matched before after r
  | String c r => String c (get_substitution matched before after r)
  end.

(** [s.replace(pat, rep)] with a string pattern: only the first occurrence
    is replaced. *)
Definition replace (pat rep s : string) : string :=
  match find pat s with
  | Some (before, after) =>
      before +:+ get_substitution pat before after rep +:+ after
  | None => s
  end.

Fixpoint drop_last (s : string) : string :=
  match s with
  | "" => ""
  | String _ "" => ""
  | String c s' => String c (drop_last s')
  end.

(** [s.slice(1, -1)] *)
Definition slice_1_m1 (s : string) : string := drop_last (string_drop 1 s).

Fixpoint join (sep : string) (l : list string) : string :=
  match l with
  | [] => ""
  | [x] => x
  | x :: l' => x +:+ sep +:+ join sep l'
  end.

(** ToString, as applied by template literals and by [replace]; for the
    numbers, the decimal digits of a safe integer. *)
Fixpoint to_string (v : Value) : string :=
  match v with
  | VUndefined => "undefined"
  | VNull => "null"
  | VBool true => "true"
  | VBool false => "false"
  | VNum n => pretty n
  | VStr s => s
  | VArr items =>
      join "," (map (fun x => if is_nullish x then "" else to_string x) items)
  | VObj _ => "[object Object]"
  end.

(** Every number in [v] that [to_string] prints is a safe integer, which
    [Number.prototype.toString] prints by its decimal digits (beyond 2^53
    the digits are rounded, from 10^21 on the exponent form is used). *)
Fixpoint safe (v : Value) : bool :=
  match v with
  | VNum n => (Z.abs n <? 2 ^ 53)%Z
  | VArr items => forallb safe items
  | _ => true
  end.

(** The double quote character, for writing JSON texts. *)
Definition dq : string := String "034" "".

(** ** Property access *)

(** The own property [key] of an object or an array, if it has one. *)
Definition own_prop (v : Value) (key : string) : option Value :=
  match v with
  | VObj fields => obj_get key fields
  | VArr items =>
      match array_index key with
      | Some i => items !! N.to_nat i
      | None =>
          if String.eqb key "length"
          then Some (VNum (Z.of_nat (length items))) else None
      end
  | _ => None
  end.

(** The names an object or an array inherits. *)
Definition inherits (v : Value) (key : string) : bool :=
  match v with
  | VObj _ => inherited key
  | VArr _ => inherited key || bool_decide (key ∈ Array_prototype)
  | _ => false
  end.

(** [v[key]] on the own properties; [inl] carries the TypeError of reading
    a property of [null] or [undefined].  Under a name that [v] inherits
    and does not own, the engine finds a function or an object of the
    standard library, which [Value] does not represent; [get_prop] then
    reads [undefined], as it does for a name that is nowhere. *)
Definition get_prop (v : Value) (key : string) : Exception + Value :=
  match v with
  | VUndefined | VNull =>
      inl (TypeError ("Cannot read property '" +:+ key +:+ "' of "
                      +:+ to_string v))
  | VObj fields => inr (default VUndefined (obj_get key fields))
  | VArr items =>
      match array_index key with
      | Some i => inr (default VUndefined (items !! N.to_nat i))
      | None =>
          inr (if String.eqb key "length"
               then VNum (Z.of_nat (length items)) else VUndefined)
      end
  | VStr s =>
      match array_index key with
      | Some i =>
          inr (match String.get (N.to_nat i) s with
               | Some c => VStr (String c "")
               | None => VUndefined
               end)
      | None =>
          inr (if String.eqb key "length"
               then VNum (Z.of_nat (String.length s)) else VUndefined)
      end
  | VBool _ | VNum _ => inr VUndefined
  end.

(** [key in v]: own or inherited; a TypeError unless [v] is an object or
    an array. *)
Definition has_prop (key : string) (v : Value) : Exception + bool :=
  match v with
  | VObj _ | VArr _ =>
      inr (bool_decide (is_Some (own_prop v key)) || inherits v key)
  | _ => inl (TypeError ("Cannot use 'in' operator to search for '"
                         +:+ key +:+ "' in " +:+ to_string v))
  end.

(** [for (const part of parts) value = value[part]] *)
Fixpoint walk (parts : list string) (v : Value) : Exception + Value :=
  match parts with
  | [] => inr v
  | part :: parts' =>
      match get_prop v part with
      | inr v' => walk parts' v'
      | inl e => inl e
      end
  end.

End Js.
Export Js.

(* ===================================================================== *)
(** * The k6 host: responses, console, completions                       *)
(* ===================================================================== *)

(** Result of [r.json()]: the decoded body, or the exception of the decoder. *)
Inductive JsonResult : Type :=
| JsonOk (v : Value)
| JsonError (message : string).

(** A k6 HTTP response.  [body] is [None] for JavaScript [null], which k6
    delivers for failed requests and for discarded bodies.  [json] is what
    [r.json()] gives for this response; decoding is the host's business. *)
Record Response : Type := mkResponse {
  status : Z;
  body : option string;
  json : JsonResult;
  timings_duration : Z
}.

Inductive Level : Type := LLog | LWarn | LError.

Definition Console : Type := list (Level * string).

(** How a call ends: it returns, it throws, or it invokes the host's
    [exec.test.abort], which interrupts the script. *)
Inductive Completion (A : Type) : Type :=
| Return (a : A)
| Throw (e : Exception)
| Abort (reason : string).
Arguments Return {A} a.
Arguments Throw {A} e.
Arguments Abort {A} reason.

(** State-and-exception monad over a module state [S]. *)
Definition M (S A : Type) : Type := S -> Completion A * S.

Definition ret {S A} (a : A) : M S A := fun s => (Return a, s).

Definition bind {S A B} (m : M S A) (k : A -> M S B) : M S B :=
  fun s =>
    match m s with
    | (Return a, s') => k a s'
    | (Throw e, s') => (Throw e, s')
    | (Abort r, s') => (Abort r, s')
    end.

Definition throw {S A} (e : Exception) : M S A := fun s => (Throw e, s).
Definition abort {S A} (reason : string) : M S A := fun s => (Abort reason, s).
Definition gets {S A} (f : S -> A) : M S A := fun s => (Return (f s), s).
Definition modify {S} (f : S -> S) : M S unit := fun s => (Return tt, f s).

Declare Scope js_scope.
Delimit Scope js_scope with js.
Notation "'let!' x ':=' m 'in' k" := (bind m (fun x => k))
  (at level 10, x name, m at level 100, k at level 200) : js_scope.
Notation "m ';;;' k" := (bind m (fun _ => k))
  (at level 100, k at level 200, right associativity) : js_scope.

Local Open Scope js_scope.

(* ===================================================================== *)
(** * lib/auth/tokenManager.js                                            *)
(* ===================================================================== *)

Module TokenManager.

(** The configuration object as the caller writes it: every field may be
    missing. *)
Record RawConfig : Type := mkRawConfig {
  raw_url : option string;
  raw_username : option string;
  raw_password : option string;
  raw_expirySeconds : option Z;
  raw_method : option string;
  raw_bodyTemplate : option Value;
  raw_tokenPath : option string;
  raw_headers : option (list (string * string))
}.

(** [tokenCache.config] after the defaults have been applied. *)
Record Config : Type := mkConfig {
  url : string;
  username : string;
  password : string;
  expirySeconds : Z;
  method : string;
  bodyTemplate : Value;
  tokenPath : string;
  headers : list (string * string)
}.

(** The token cache object; [None] stands for [null]. *)
Record TokenCache : Type := mkTokenCache {
  token : Value;
  expiresAt : option Z;
  generatedAt : option Z;
  config : option Config
}.

(** The object the module starts with. *)
Definition empty_cache : TokenCache :=
  {| token := VNull; expiresAt := None; generatedAt := None; config := None |}.

Global Instance TokenCache_inhabited : Inhabited TokenCache :=
  populate empty_cache.

(** Arguments of one [http.request] call. *)
Record Request : Type := mkRequest {
  req_method : string;
  req_url : string;
  req_body : string;
  req_headers : list (string * string);
  req_timeout : string;
  req_tags : list (string * string)
}.

(** What the host contributes: the serializer, the date formatter, and the
    network, which answers the [n]-th request of the run with a response
    after some elapsed milliseconds. *)
Record Host : Type := mkHost {
  JSON_stringify : Value -> string;
  toISOString : Z -> string;
  http_request : nat -> Request -> Response * Z
}.

(** The value [setup()] hands to every iteration. *)
Record SetupData : Type := mkSetupData {
  tokenManager : option nat;
  timestamp : Z
}.


(** Module state.  Cache objects live in [heap] and [tokenCache] is the
    reference held by the module variable, so that [tokenCache =
    data.tokenManager] aliases the caller's object instead of copying it. *)
Record State : Type := mkState {
  heap : gmap nat TokenCache;
  tokenCache : nat;
  refreshLock : bool;
  clock : Z;
  console : Console;
  requests : list Request;
  checks : list (string * bool)
}.

Definition set_heap (f : gmap nat TokenCache -> gmap nat TokenCache)
    (s : State) : State :=
  mkState (f (heap s)) (tokenCache s) (refreshLock s) (clock s) (console s)
          (requests s) (checks s).
Definition set_tokenCache (l : nat) (s : State) : State :=
  mkState (heap s) l (refreshLock s) (clock s) (console s) (requests s)
          (checks s).
Definition set_refreshLock (b : bool) (s : State) : State :=
  mkState (heap s) (tokenCache s) b (clock s) (console s) (requests s)
          (checks s).
Definition set_clock (f : Z -> Z) (s : State) : State :=
  mkState (heap s) (tokenCache s) (refreshLock s) (f (clock s)) (console s)
          (requests s) (checks s).
Definition set_console (f : Console -> Console) (s : State) : State :=
  mkState (heap s) (tokenCache s) (refreshLock s) (clock s) (f (console s))
          (requests s) (checks s).
Definition set_requests (f : list Request -> list Request) (s : State)
  : State :=
  mkState (heap s) (tokenCache s) (refreshLock s) (clock s) (console s)
          (f (requests s)) (checks s).
Definition set_checks (f : list (string * bool) -> list (string * bool))
    (s : State) : State :=
  mkState (heap s) (tokenCache s) (refreshLock s) (clock s) (console s)
          (requests s) (f (checks s)).

(** The object [tokenCache] currently refers to. *)
Definition cache (s : State) : TokenCache := heap s !!! tokenCache s.

(** [tokenCache.f = ...]: update the object the module variable refers to. *)
Definition update_cache (f : TokenCache -> TokenCache) : M State unit :=
  modify (fun s => set_heap (<[tokenCache s := f (cache s)]>) s).

Definition log (lvl : Level) (msg : string) : M State unit :=
  modify (set_console (fun c => c ++ [(lvl, msg)])).

(** [Date.now()] *)
Definition Date_now : M State Z := gets clock.

(** [sleep(seconds)], in milliseconds. *)
Definition sleep (ms : Z) : M State unit := modify (set_clock (Z.add ms)).

(** [x * 0.8] on an integral number of milliseconds. *)
Definition times_0_8 (x : Z) : Z := (x * 8 / 10)%Z.

(** [null] reads as 0 in arithmetic. *)
Definition to_number (t : option Z) : Z := default 0%Z t.

Section WithHost.
Context (host : Host).

(** [http.request(...)]: the host answers; the call is recorded and the
    clock advances by the time the request took. *)
Definition request (r : Request) : M State Response :=
  fun s =>
    let '(res, elapsed) := http_request host (length (requests s)) r in
    (Return res,
     set_clock (Z.add elapsed) (set_requests (fun l => l ++ [r]) s)).

(** k6 [check(val, sets)]: every predicate is evaluated and recorded, the
    result is their conjunction. *)
Definition check {A} (val : A) (sets : list (string * (A -> bool)))
  : M State bool :=
  let results := map (fun c => (c.1, c.2 val)) sets in
  modify (set_checks (fun l => l ++ results)) ;;;
  ret (forallb snd results).

(** [r.json()] followed by the walk along [tokenPath.split('.')]. *)
Definition token_at (path : string) (r : Response) : Exception + Value :=
  match json r with
  | JsonError m => inl (Error m)
  | JsonOk v => walk (split "." path) v
  end.

Definition generateToken : M State Value :=
  let! c := gets cache in
  match config c with
  | None => throw (TypeError "Cannot read property 'url' of null")
  | Some config =>
      log LLog ("[TOKEN] Generating new token from " +:+ url config +:+ "...") ;;;
      let body' :=
        if truthy (bodyTemplate config)
        then JSON_stringify host (bodyTemplate config)
        else JSON_stringify host
               (VObj [("username", VStr (username config));
                      ("password", VStr (password config))]) in
      let requestHeaders :=
        foldl (fun o kv => obj_set kv.1 kv.2 o)
              [("Content-Type", "application/json")]
              (entries (headers config)) in
      let! res := request
        {| req_method := method config; req_url := url config;
           req_body := body'; req_headers := requestHeaders;
           req_timeout := "30s";
           req_tags := [("name", "auth_token_generation")] |} in
      let! success := check res
        [("token generation successful",
          fun r => bool_decide (status r = 200 \/ status r = 201)%Z);
         ("token in response",
          fun r => match token_at (tokenPath config) r with
                   | inr value => negb (is_nullish value)
                   | inl _ => false
                   end)] in
      if negb success then
        match body res with
        | None => throw (TypeError "Cannot read property 'substring' of null")
        | Some b =>
            log LError ("[TOKEN] Generation failed - Status: "
                        +:+ pretty (status res) +:+ ", Body: "
                        +:+ String.substring 0 200 b) ;;;
            ret VNull
        end
      else
        match token_at (tokenPath config) res with
        | inl error =>
            log LError ("[TOKEN] Error parsing token response: "
                        +:+ message_of error) ;;;
            ret VNull
        | inr token =>
            if negb (truthy token) then
              log LError "[TOKEN] Token not found in response" ;;;
              ret VNull
            else
              let! now := Date_now in
              update_cache (fun c =>
                {| token := token;
                   generatedAt := Some now;
                   expiresAt := Some (now + expirySeconds config * 1000)%Z;
                   config := TokenManager.config c |}) ;;;
              log LLog ("[TOKEN] ✓ New token generated (valid until "
                        +:+ toISOString host
                              (now + expirySeconds config * 1000)%Z
                        +:+ ")") ;;;
              ret token
        end
  end.

Definition falsy_string (o : option string) : bool :=
  match o with None => true | Some s => String.eqb s "" end.

Definition initTokenManager (config : RawConfig) : M State SetupData :=
  log LLog "=== Token Manager Initialization ===" ;;;
  let url := raw_url config in
  let username := raw_username config in
  let password := raw_password config in
  let expirySeconds := default 600%Z (raw_expirySeconds config) in
  let method := default "POST" (raw_method config) in
  let bodyTemplate := default VNull (raw_bodyTemplate config) in
  let tokenPath := default "access_token" (raw_tokenPath config) in
  let headers := default [] (raw_headers config) in
  if falsy_string url then throw (Error "Token URL is required")
  else if falsy_string username || falsy_string password
  then throw (Error "Username and password are required")
  else
    update_cache (fun c =>
      {| token := token c; expiresAt := expiresAt c;
         generatedAt := generatedAt c;
         config := Some (mkConfig (default "" url) (default "" username)
                           (default "" password) expirySeconds method
                           bodyTemplate tokenPath headers) |}) ;;;
    let! token := generateToken in
    if negb (truthy token)
    then throw (Error "Failed to generate initial token")
    else
      log LLog ("Initial token generated successfully (expires in "
                +:+ pretty expirySeconds +:+ "s)") ;;;
      log LLog ("====================================" +:+ String "010" "") ;;;
      let! l := gets tokenCache in
      let! now := Date_now in
      ret {| tokenManager := Some l; timestamp := now |}.

Definition getToken (data : option SetupData) : M State Value :=
  let! c := gets cache in
  match config c, data with
  | None, Some {| tokenManager := Some l |} => modify (set_tokenCache l)
  | _, _ => ret tt
  end ;;;
  let! c := gets cache in
  match config c with
  | None =>
      throw (Error
        "Token manager not initialized. Call initTokenManager() in setup()")
  | Some cfg =>
      let! now := Date_now in
      let refreshThreshold :=
        (to_number (generatedAt c) + times_0_8 (expirySeconds cfg * 1000))%Z in
      if (refreshThreshold <=? now)%Z then
        let! locked := gets refreshLock in
        if negb locked then
          modify (set_refreshLock true) ;;;
          log LLog "[TOKEN] Token approaching expiry, refreshing..." ;;;
          let! newToken := generateToken in
          modify (set_refreshLock false) ;;;
          if truthy newToken then ret newToken
          else
            log LWarn "[TOKEN] Refresh failed, using existing token" ;;;
            gets (fun s => token (cache s))
        else
          sleep 100 ;;;
          gets (fun s => token (cache s))
      else gets (fun s => token (cache s))
  end.

Definition isTokenValid : M State bool :=
  let! c := gets cache in
  match expiresAt c with
  | Some e =>
      if negb (truthy (token c)) || (e =? 0)%Z then ret false
      else let! now := Date_now in ret (now <? e)%Z
  | None => ret false
  end.

Definition getTokenTTL : M State Z :=
  let! c := gets cache in
  match expiresAt c with
  | Some e =>
      if (e =? 0)%Z then ret 0%Z
      else let! now := Date_now in ret (Z.max 0 (e - now))
  | None => ret 0%Z
  end.

Definition forceRefreshToken : M State Value :=
  log LLog "[TOKEN] Force refresh requested" ;;;
  generateToken.





End WithHost.

End TokenManager.

(* ===================================================================== *)
(** * lib/data/csvManager.js                                              *)
(* ===================================================================== *)

Module CsvManager.

Record Options : Type := mkOptions {
  abortOnExhaustion : bool;
  logExhaustion : bool
}.

(** [options = {}] *)
Definition default_options : Options :=
  {| abortOnExhaustion := true; logExhaustion := true |}.

(** What [getUniqueData] can return: a record of the array, [null], or the
    [undefined] of reading an array at an index it does not have. *)
Inductive Fetched (A : Type) : Type :=
| Row (record : A)
| Null
| Undefined.
Arguments Row {A} record.
Arguments Null {A}.
Arguments Undefined {A}.

Definition log (lvl : Level) (msg : string) : M Console unit :=
  modify (fun c => c ++ [(lvl, msg)]).

(** [(vuId - 1) * 1000 + iteration] *)
Definition unique_index (vuId iteration : Z) : Z :=
  ((vuId - 1) * 1000 + iteration)%Z.

(** [dataArray[index]] *)
Definition at_index {A} (dataArray : list A) (index : Z) : Fetched A :=
  if (index <? 0)%Z then Undefined
  else match dataArray !! Z.to_nat index with
       | Some record => Row record
       | None => Undefined
       end.

(** [dataArray] is [None] when the caller passes [null] or [undefined]. *)
Definition getUniqueData {A} (dataArray : option (list A))
    (vuId iteration : Z) (options : Options) : M Console (Fetched A) :=
  match dataArray with
  | Some ((_ :: _) as rows) =>
      let index := unique_index vuId iteration in
      if (Z.of_nat (length rows) <=? index)%Z then
        (if logExhaustion options
         then log LError ("[DATA] Data exhausted! VU " +:+ pretty vuId
                +:+ ", Iter " +:+ pretty iteration +:+ ", Index "
                +:+ pretty index +:+ " exceeds "
                +:+ pretty (length rows) +:+ " records")
         else ret tt) ;;;
        (if abortOnExhaustion options
         then abort ("CSV data exhausted at VU " +:+ pretty vuId
                     +:+ ", Iteration " +:+ pretty iteration)
         else ret tt) ;;;
        ret Null
      else ret (at_index rows index)
  | _ =>
      (if logExhaustion options
       then log LError "[DATA] Data array is empty!" else ret tt) ;;;
      (if abortOnExhaustion options
       then abort "CSV data array is empty" else ret tt) ;;;
      ret Null
  end.

(** [getDataByIndex]: no logging, no abort. *)
Definition getDataByIndex {A} (dataArray : option (list A)) (index : Z)
  : Fetched A :=
  match dataArray with
  | None => Null
  | Some rows =>
      if (Z.of_nat (length rows) <=? index)%Z then Null
      else at_index rows index
  end.

(** [isDataSufficient(dataArray, totalVUs, iterations)], for an array: the
    code reads [dataArray.length] unguarded. *)
Definition isDataSufficient {A} (dataArray : list A) (totalVUs iterations : Z)
  : M Console bool :=
  let requiredRecords := (totalVUs * iterations)%Z in
  let available := Z.of_nat (length dataArray) in
  let sufficient := (requiredRecords <=? available)%Z in
  log LLog ("[DATA] Capacity check: " +:+ pretty available
            +:+ " records available, " +:+ pretty requiredRecords
            +:+ " required (" +:+ pretty totalVUs +:+ " VUs × "
            +:+ pretty iterations +:+ " iterations)") ;;;
  (if negb sufficient
   then log LWarn ("[DATA] ⚠ WARNING: Insufficient data! Need "
                   +:+ pretty (requiredRecords - available)%Z
                   +:+ " more records")
   else log LLog "[DATA] ✓ Sufficient data available") ;;;
  ret sufficient.

(** The object [validateDataset] returns: [{valid: false, error}] with
    [missingFields] when fields are missing, or [{valid: true,
    totalRecords, fields}]. *)
Inductive DatasetValidation : Type :=
| Invalid (error : string) (missingFields : option (list string))
| Valid (totalRecords : nat) (fields : list string).

(** [field in record] for a plain object: a column of the record or a
    member it inherits from [Object.prototype]. *)
Definition in_record (field : string) (record : list (string * Value))
  : bool :=
  bool_decide (is_Some (obj_get field record)) || inherited field.

(** [validateDataset(dataArray, requiredFields)], for records parsed with a
    header row: each record is a plain object from column name to value.
    [dataArray] is [None] for [null] or [undefined]. *)
Definition validateDataset (dataArray : option (list (list (string * Value))))
    (requiredFields : list string) : DatasetValidation :=
  match dataArray with
  | Some ((firstRecord :: _) as rows) =>
      let missingFields :=
        List.filter (fun field => negb (in_record field firstRecord))
                    requiredFields in
      match missingFields with
      | _ :: _ =>
          Invalid ("Missing required fields: " +:+ join ", " missingFields)
                  (Some missingFields)
      | [] => Valid (length rows) (map fst (entries firstRecord))
      end
  | _ => Invalid "Dataset is empty" None
  end.

(** The object [calculateDataUsage] returns.  A quotient or remainder by
    zero is not a finite number ([Infinity], [NaN]); [None] stands for
    it. *)
Record DataUsage : Type := mkDataUsage {
  totalRecords : Z;
  totalVUs : Z;
  recordsPerVU : option Z;
  remainder : option Z;
  maxIterationsPerVU : option Z
}.

(** [calculateDataUsage(totalRecords, totalVUs)]: [Math.floor] of the
    quotient and the [%] remainder, which takes the sign of the dividend. *)
Definition calculateDataUsage (totalRecords totalVUs : Z) : DataUsage :=
  let recordsPerVU :=
    if (totalVUs =? 0)%Z then None else Some (totalRecords / totalVUs)%Z in
  let remainder :=
    if (totalVUs =? 0)%Z then None else Some (Z.rem totalRecords totalVUs) in
  {| totalRecords := totalRecords;
     totalVUs := totalVUs;
     recordsPerVU := recordsPerVU;
     remainder := remainder;
     maxIterationsPerVU := recordsPerVU |}.

End CsvManager.

(* ===================================================================== *)
(** * lib/correlation/correlationManager.js                               *)
(* ===================================================================== *)

Module CorrelationManager.

(** One stored correlation. *)
Record Entry : Type := mkEntry {
  value : Value;
  extractedAt : Z;
  source : string
}.

Record State : Type := mkState {
  correlationStore : gmap string Entry;
  clock : Z;
  console : Console
}.

Definition set_store (f : gmap string Entry -> gmap string Entry)
    (s : State) : State :=
  mkState (f (correlationStore s)) (clock s) (console s).
Definition set_console (f : Console -> Console) (s : State) : State :=
  mkState (correlationStore s) (clock s) (f (console s)).

Definition log (lvl : Level) (msg : string) : M State unit :=
  modify (set_console (fun c => c ++ [(lvl, msg)])).

Definition Date_now : M State Z := gets clock.

Record Options : Type := mkOptions {
  required : bool;
  defaultValue : Value;
  logExtraction : bool
}.

(** [options = {}] *)
Definition default_options : Options :=
  {| required := true; defaultValue := VNull; logExtraction := true |}.

(** ** The regular expression [/(\w+)\[(\d+)\]/] *)

(** One or more digits and a closing bracket at the front of [s]. *)
Fixpoint index_suffix (acc : N) (seen : bool) (s : string) : option N :=
  match s with
  | "" => None
  | String c s' =>
      match Ascii.is_nat c with
      | Some d => index_suffix (acc * 10 + N.of_nat d) true s'
      | None => if seen && Ascii.eqb c "]" then Some acc else None
      end
  end.

(** Leftmost match: the first maximal run of word characters that is
    followed by a bracketed numeral.  [name] is the run read so far. *)
Fixpoint arrayMatch_from (name : string) (s : string) : option (string * N) :=
  match s with
  | "" => None
  | String c s' =>
      if is_word c then arrayMatch_from (name +:+ String c "") s'
      else if Ascii.eqb c "[" && negb (String.eqb name "") then
        match index_suffix 0 false s' with
        | Some index => Some (name, index)
        | None => arrayMatch_from "" s'
        end
      else arrayMatch_from "" s'
  end.

(** [part.match(/(\w+)\[(\d+)\]/)], giving the name and [parseInt] of the
    index. *)
Definition arrayMatch (part : string) : option (string * N) :=
  arrayMatch_from "" part.

(** The loop of [extractJsonValue] over the path segments; [inr None] is
    the early [return defaultValue]. *)
Fixpoint resolve (pathParts : list string) (value : Value)
  : Exception + option Value :=
  match pathParts with
  | [] => inr (Some value)
  | part :: rest =>
      if is_nullish value then inr None
      else
        match arrayMatch part with
        | Some (arrayName, index) =>
            match get_prop value arrayName with
            | inl e => inl e
            | inr (VArr items) =>
                match items !! N.to_nat index with
                | Some item => resolve rest item
                | None => inr None
                end
            | inr _ => inr None
            end
        | None =>
            match get_prop value part with
            | inl e => inl e
            | inr value' => resolve rest value'
            end
        end
  end.

Definition extractJsonValue (response : option Response) (path : string)
    (defaultValue : Value) : M State Value :=
  match response with
  | None => ret defaultValue
  | Some r =>
      let caught (message : string) :=
        log LError ("[CORRELATION] Error extracting '" +:+ path +:+ "': "
                    +:+ message) ;;;
        ret defaultValue in
      match json r with
      | JsonError message => caught message
      | JsonOk jsonData =>
          if String.eqb path "" then ret jsonData
          else
            match resolve (split "." path) jsonData with
            | inl e => caught (message_of e)
            | inr None => ret defaultValue
            | inr (Some VUndefined) => ret defaultValue
            | inr (Some value) => ret value
            end
      end
  end.

Definition extractAndStore (response : option Response)
    (jsonPath correlationKey : string) (options : Options) : M State Value :=
  let required := required options in
  let defaultValue := default_null (defaultValue options) in
  let logExtraction := logExtraction options in
  let! value := extractJsonValue response jsonPath defaultValue in
  let store :=
    let! now := Date_now in
    modify (set_store (<[correlationKey :=
      {| value := value; extractedAt := now; source := jsonPath |}]>)) ;;;
    (if logExtraction
     then log LLog ("[CORRELATION] ✓ Stored '" +:+ correlationKey +:+ "' = "
                    +:+ to_string value)
     else ret tt) ;;;
    ret value in
  if is_nullish value then
    let errorMsg := "[CORRELATION] Failed to extract '" +:+ correlationKey
                    +:+ "' from path '" +:+ jsonPath +:+ "'" in
    if required then
      log LError errorMsg ;;;
      match response with
      | None => throw (TypeError "Cannot read property 'status' of null")
      | Some r =>
          log LError ("[CORRELATION] Response status: "
                      +:+ pretty (status r)) ;;;
          match body r with
          | None =>
              throw (TypeError "Cannot read property 'substring' of null")
          | Some b =>
              log LError ("[CORRELATION] Response body: "
                          +:+ String.substring 0 200 b) ;;;
              ret VNull
          end
      end
    else
      (if logExtraction then log LWarn (errorMsg +:+ " (optional)")
       else ret tt) ;;;
      store
  else store.

(** What [correlationStore[key]] finds: an entry written under the key, a
    member the store inherits from [Object.prototype] (a function, or the
    prototype itself under [__proto__]), or nothing. *)
Inductive Stored : Type :=
| OwnEntry (stored : Entry)
| InheritedMember
| NotStored.

Definition read_store (key : string) (s : State) : Stored :=
  match correlationStore s !! key with
  | Some stored => OwnEntry stored
  | None => if inherited key then InheritedMember else NotStored
  end.

(** [defaultValue = null]: an omitted or [undefined] default reads [null].
    An inherited member is truthy and has no [value]. *)
Definition getCorrelatedValue (correlationKey : string)
    (defaultValue : Value) : M State Value :=
  let defaultValue := default_null defaultValue in
  let! stored := gets (read_store correlationKey) in
  match stored with
  | NotStored => ret defaultValue
  | InheritedMember => ret VUndefined
  | OwnEntry stored => ret (value stored)
  end.

(** [key in correlationStore] holds for an inherited member as well, whose
    [value] is [undefined]. *)
Definition hasCorrelation (correlationKey : string) : M State bool :=
  let! stored := gets (read_store correlationKey) in
  match stored with
  | NotStored => ret false
  | InheritedMember => ret false
  | OwnEntry stored => ret (negb (is_nullish (value stored)))
  end.

(** [correlationStore[key] = {...}].  Under the key [__proto__] the
    assignment creates no property: it makes the entry the prototype of
    the store.  The model keeps that entry under the key, where
    [correlationStore['__proto__']] reads it back; it does not follow what
    the store then inherits from the entry under the names [value],
    [extractedAt] and [source], so that a store with an entry under
    [__proto__] is modelled for the reads of its own keys only. *)
Definition storeCorrelation (key : string) (v : Value) : M State unit :=
  let! now := Date_now in
  modify (set_store (<[key :=
    {| value := v; extractedAt := now; source := "manual" |}]>)).

Definition clearCorrelations : M State unit :=
  modify (set_store (fun _ => ∅)).

Definition clearCorrelation (key : string) : M State unit :=
  modify (set_store (delete key)).

(** ** The regular expression [/\{([^}]+)\}/g] *)

(** Scanner state: [None] outside a candidate, [Some text] after an opening
    brace, with the characters other than the closing brace read since. *)
Fixpoint placeholders_from (open : option string) (s : string)
  : list string :=
  match s with
  | "" => []
  | String c s' =>
      match open with
      | None =>
          placeholders_from (if Ascii.eqb c "{" then Some "" else None) s'
      | Some text =>
          if Ascii.eqb c "}" then
            if String.eqb text "" then placeholders_from None s'
            else ("{" +:+ text +:+ "}") :: placeholders_from None s'
          else placeholders_from (Some (text +:+ String c "")) s'
      end
  end.

(** [urlTemplate.match(/\{([^}]+)\}/g)]; the empty list stands for [null]. *)
Definition match_placeholders (urlTemplate : string) : list string :=
  placeholders_from None urlTemplate.

(** The [for ... of Object.entries(correlationMapping)] loop. *)
Fixpoint substitute (mapping : list (string * string)) (url : string)
  : M State (option string) :=
  match mapping with
  | [] => ret (Some url)
  | (placeholder, correlationKey) :: mapping' =>
      let! value := getCorrelatedValue correlationKey VUndefined in
      if is_nullish value then
        log LError ("[CORRELATION] Cannot build URL: missing correlation '"
                    +:+ correlationKey +:+ "' for placeholder '{"
                    +:+ placeholder +:+ "}'") ;;;
        ret None
      else
        substitute mapping'
          (replace ("{" +:+ placeholder +:+ "}") (to_string value) url)
  end.

(** [correlationMapping] is [None] when the argument is omitted or [null];
    the result is [None] for [null]. *)
Definition buildCorrelatedUrl (urlTemplate : string)
    (correlationMapping : option (list (string * string)))
  : M State (option string) :=
  let url := urlTemplate in
  let correlationMapping :=
    match correlationMapping with
    | Some m => Some m
    | None =>
        match match_placeholders urlTemplate with
        | [] => None
        | placeholders =>
            Some (foldl (fun m p =>
                           let key := slice_1_m1 p in
                           obj_set_primitive key key m)
                        [] placeholders)
        end
    end in
  match correlationMapping with
  | None => ret (Some url)
  | Some m => substitute (entries m) url
  end.

Record ValidateOptions : Type := mkValidateOptions {
  abortOnMissing : bool;
  logMissing : bool
}.

(** [options = {}] of [validateCorrelations]. *)
Definition default_validate_options : ValidateOptions :=
  {| abortOnMissing := false; logMissing := true |}.


Section WithKeyOrder.

(** [Object.keys(correlationStore)]: the finite map does not record the
    order in which the keys were first written, so the listing is taken as
    given.  It only feeds a console line. *)
Context (Object_keys : gmap string Entry -> list string).


End WithKeyOrder.



(** [getAllCorrelations()]: the object from key to stored value. *)
Definition getAllCorrelations : M State (gmap string Value) :=
  gets (fun s => value <$> correlationStore s).

End CorrelationManager.

(* ===================================================================== *)
(** * lib/validation/validators.js                                        *)
(* ===================================================================== *)

Module Validators.

(** [bodyContains] and [bodyNotContains]: one text or an array of texts. *)
Inductive Texts : Type :=
| One (text : string)
| Many (texts : list string).

(** [Array.isArray(t) ? t : [t]] *)
Definition as_list (t : Texts) : list string :=
  match t with One text => [text] | Many texts => texts end.

(** ToBoolean of the option: [null], [undefined] and the empty string are
    falsy, every array is truthy. *)
Definition texts_given (t : option Texts) : bool :=
  match t with
  | None => false
  | Some (One text) => negb (String.eqb text "")
  | Some (Many _) => true
  end.

(** A predicate of a check set: what it answers for a response, or the
    exception it throws. *)
Definition Predicate : Type := Response -> Exception + bool.

(** A predicate that cannot throw. *)
Definition total (p : Response -> bool) : Predicate := fun r => inr (p r).

Record Config : Type := mkConfig {
  apiName : option string;
  expectedStatus : Z;
  expectedStatuses : option (list Z);
  checkBody : bool;
  bodyContains : option Texts;
  bodyNotContains : option Texts;
  jsonSchema : option (list (string * Value));
  customChecks : option (list (string * Predicate));
  failFast : bool
}.

(** The configuration [{}]: every field at the default of the
    destructuring. *)
Definition default_config : Config :=
  {| apiName := None; expectedStatus := 200; expectedStatuses := None;
     checkBody := false; bodyContains := None; bodyNotContains := None;
     jsonSchema := None; customChecks := None; failFast := true |}.

(** One recorded check: its name, its tags and whether it passed. *)
Record CheckSample : Type := mkCheckSample {
  check_name : string;
  check_tags : list (string * string);
  check_passed : bool
}.

(** Module state: the two custom metrics, the samples of the built-in
    check metric, and the console.  [businessErrors] is the counter's sum,
    [businessErrorRate] the samples added to the rate. *)
Record State : Type := mkState {
  businessErrors : Z;
  businessErrorRate : list Z;
  checks : list CheckSample;
  console : Console
}.

Definition businessErrors_add (v : Z) : M State unit :=
  modify (fun s => mkState (businessErrors s + v)%Z (businessErrorRate s)
                           (checks s) (console s)).
Definition businessErrorRate_add (v : Z) : M State unit :=
  modify (fun s => mkState (businessErrors s) (businessErrorRate s ++ [v])
                           (checks s) (console s)).
Definition record_checks (l : list CheckSample) : M State unit :=
  modify (fun s => mkState (businessErrors s) (businessErrorRate s)
                           (checks s ++ l) (console s)).
Definition log (lvl : Level) (msg : string) : M State unit :=
  modify (fun s => mkState (businessErrors s) (businessErrorRate s)
                           (checks s) (console s ++ [(lvl, msg)])).

(** The loop of k6 [check] over the keys of the set: each predicate is
    evaluated and recorded under [tags].  A predicate that throws is
    recorded as failed, and its exception leaves the call at once. *)
Fixpoint run_checks (val : Response) (tags : list (string * string))
    (sets : list (string * Predicate)) (succ : bool) : M State bool :=
  match sets with
  | [] => ret succ
  | (name, predicate) :: rest =>
      match predicate val with
      | inr passed =>
          record_checks [mkCheckSample name tags passed] ;;;
          run_checks val tags rest (succ && passed)
      | inl exc =>
          record_checks [mkCheckSample name tags false] ;;;
          throw exc
      end
  end.

(** k6 [check(val, sets, tags)]: the conjunction of the predicates. *)
Definition check (val : Response) (sets : list (string * Predicate))
    (tags : list (string * string)) : M State bool :=
  run_checks val tags (entries sets) true.

Definition body_nonempty (r : Response) : bool :=
  match body r with
  | Some b => negb (String.eqb b "")
  | None => false
  end.

Definition body_includes (text : string) (r : Response) : bool :=
  match body r with
  | Some b => negb (String.eqb b "") && includes text b
  | None => false
  end.

Definition body_excludes (text : string) (r : Response) : bool :=
  match body r with
  | Some b => String.eqb b "" || negb (includes text b)
  | None => true
  end.

Definition valid_json (r : Response) : bool :=
  match json r with JsonOk _ => true | JsonError _ => false end.

Definition has_field (field : string) (r : Response) : bool :=
  match json r with
  | JsonOk v => match has_prop field v with inr b => b | inl _ => false end
  | JsonError _ => false
  end.

(** [Array.isArray(value) ? 'array' : typeof value] for [value =
    json[field]].  A member that [json] inherits is a function, or under
    [__proto__] its prototype: an object, which for an array is an array. *)
Definition field_has_type (field : string) (expectedType : Value)
    (r : Response) : bool :=
  match json r with
  | JsonOk v =>
      match get_prop v field with
      | inr value =>
          let actualType :=
            if inherits v field && negb (bool_decide (is_Some (own_prop v field)))
            then (if String.eqb field "__proto__"
                  then (if isArray v then "array" else "object")
                  else "function")
            else if isArray value then "array" else typeof value in
          match expectedType with
          | VStr t => String.eqb actualType t
          | _ => false
          end
      | inl _ => false
      end
  | JsonError _ => false
  end.

Definition Checks : Type := list (string * Predicate).

Definition schema_checks (apiName : string)
    (schema : list (string * Value)) (checks : Checks) : Checks :=
  foldl (fun checks fe =>
           let '(field, expectedType) := fe in
           let checks :=
             obj_set (apiName +:+ ": has field '" +:+ field +:+ "'")
                     (total (has_field field)) checks in
           if truthy expectedType then
             obj_set (apiName +:+ ": '" +:+ field +:+ "' is "
                      +:+ to_string expectedType)
                     (total (field_has_type field expectedType)) checks
           else checks)
        (obj_set (apiName +:+ ": valid JSON response") (total valid_json)
                 checks)
        (entries schema).

Definition validateResponse (response : Response) (config : Config)
  : M State bool :=
  match apiName config with
  | None | Some "" =>
      log LError "[VALIDATION] API name is required for validation" ;;;
      ret false
  | Some apiName =>
      let checks : Checks := [] in
      let tags := [("api", apiName)] in
      let checks :=
        match expectedStatuses config with
        | Some expectedStatuses =>
            obj_set (apiName +:+ ": status in ["
                     +:+ join "," (map pretty expectedStatuses) +:+ "]")
                    (total (fun r => bool_decide (status r ∈ expectedStatuses)))
                    checks
        | None =>
            obj_set (apiName +:+ ": status " +:+ pretty (expectedStatus config))
                    (total (fun r => bool_decide (status r = expectedStatus config)))
                    checks
        end in
      let checks :=
        obj_set (apiName +:+ ": response time < 5s")
                (total (fun r => (timings_duration r <? 5000)%Z)) checks in
      let checks :=
        if checkBody config || texts_given (bodyContains config)
           || bool_decide (is_Some (jsonSchema config))
        then obj_set (apiName +:+ ": has response body") (total body_nonempty) checks
        else checks in
      let checks :=
        if texts_given (bodyContains config) then
          foldl (fun checks text =>
                   obj_set (apiName +:+ ": body contains '" +:+ text +:+ "'")
                           (total (body_includes text)) checks)
                checks (from_option as_list [] (bodyContains config))
        else checks in
      let checks :=
        if texts_given (bodyNotContains config) then
          foldl (fun checks text =>
                   obj_set (apiName +:+ ": body does not contain '"
                            +:+ text +:+ "'")
                           (total (body_excludes text)) checks)
                checks (from_option as_list [] (bodyNotContains config))
        else checks in
      let checks :=
        match jsonSchema config with
        | Some schema => schema_checks apiName schema checks
        | None => checks
        end in
      let checks :=
        match customChecks config with
        | Some custom =>
            foldl (fun checks cf =>
                     obj_set (apiName +:+ ": " +:+ cf.1) cf.2 checks)
                  checks (entries custom)
        | None => checks
        end in
      let! result := check response checks tags in
      (if bool_decide (status response < 200 \/ status response >= 300)%Z
       then businessErrors_add 1 ;;; businessErrorRate_add 1
       else businessErrorRate_add 0) ;;;
      ret result
  end.

Definition validateStatusCode (response : Response) (expectedStatus : Z)
    (apiName : string) : M State bool :=
  check response
    [(apiName +:+ ": status " +:+ pretty expectedStatus,
      total (fun r => bool_decide (status r = expectedStatus)))]
    [("api", apiName)].

Definition validateStatusIn (response : Response)
    (acceptableStatuses : list Z) (apiName : string) : M State bool :=
  let! result := check response
    [(apiName +:+ ": status in ["
      +:+ join "," (map pretty acceptableStatuses) +:+ "]",
      total (fun r => bool_decide (status r ∈ acceptableStatuses)))]
    [("api", apiName)] in
  (if negb (bool_decide (status response ∈ acceptableStatuses))
   then businessErrors_add 1 ;;; businessErrorRate_add 1
   else businessErrorRate_add 0) ;;;
  ret result.

(** [field in json && json[field] !== null && json[field] !== undefined],
    inside the [try].  A member that [json] inherits and does not own is a
    function or a prototype object, neither [null] nor [undefined]. *)
Definition field_present (field : string) (r : Response) : bool :=
  match json r with
  | JsonOk v =>
      match has_prop field v with
      | inr true =>
          match own_prop v field with
          | Some value => negb (is_nullish value)
          | None => true
          end
      | _ => false
      end
  | JsonError _ => false
  end.

Definition validateJsonFields (response : Response)
    (requiredFields : list string) (apiName : string) : M State bool :=
  let checks : Checks :=
    foldl (fun checks field =>
             obj_set (apiName +:+ ": has field '" +:+ field +:+ "'")
                     (total (field_present field)) checks)
          [] requiredFields in
  check response checks [("api", apiName)].

Definition validateResponseTime (response : Response) (maxDuration : Z)
    (apiName : string) : M State bool :=
  check response
    [(apiName +:+ ": response time < " +:+ pretty maxDuration +:+ "ms",
      total (fun r => (timings_duration r <? maxDuration)%Z))]
    [("api", apiName)].

(** One element of the [validations] array of [batchValidate], by its
    [type]: a status number, a field name, a duration in milliseconds; any
    other [type] matches no case of the [switch]. *)
Inductive Validation : Type :=
| StatusIs (value : Z)
| FieldExists (value : string)
| ResponseTimeBelow (value : Z)
| OtherType (type : string).

Fixpoint batch_loop (response : Response) (apiName : string)
    (validations : list Validation) (allPassed : bool) : M State bool :=
  match validations with
  | [] => ret allPassed
  | validation :: rest =>
      let! passed :=
        match validation with
        | StatusIs value => validateStatusCode response value apiName
        | FieldExists value => validateJsonFields response [value] apiName
        | ResponseTimeBelow value =>
            validateResponseTime response value apiName
        | OtherType _ => ret false
        end in
      batch_loop response apiName rest (if passed then allPassed else false)
  end.

Definition batchValidate (response : Response) (apiName : string)
    (validations : list Validation) : M State bool :=
  batch_loop response apiName validations true.

End Validators.

(* ===================================================================== *)
(** * lib/errors/errorLogger.js                                           *)
(* ===================================================================== *)

Module ErrorLogger.

(** What the logger reads of a k6 response. *)
Record Response : Type := mkResponse {
  status : Z;
  status_text : string;
  body : option string
}.

(** What the runtime contributes: the serializer, the date formatter and
    the globals [__VU] and [__ITER] as they stand during the call. *)
Record Host : Type := mkHost {
  JSON_stringify : Value -> string;
  toISOString : Z -> string;
  VU : Z;
  ITER : Z
}.

(** An entry of [errorLog]: an object, its properties in the order they
    were written. *)
Definition ErrorEntry : Type := list (string * Value).

Record State : Type := mkState {
  errorLog : list ErrorEntry;
  clock : Z;
  console : Console
}.

Definition log (lvl : Level) (msg : string) : M State unit :=
  modify (fun s => mkState (errorLog s) (clock s) (console s ++ [(lvl, msg)])).

(** [errorLog.push(entry)] *)
Definition push (entry : ErrorEntry) : M State unit :=
  modify (fun s => mkState (errorLog s ++ [entry]) (clock s) (console s)).

(** The line feed between the lines of a template literal. *)
Definition nl : string := String "010" "".

(** The 64 double strokes of the frame. *)
Definition rule : string :=
  "════════════════════════════════════════════════════════════════".

(** [response && response.body ? response.body.substring(0, 200) : 'N/A'] *)
Definition response_body (response : option Response) : string :=
  match response with
  | Some r =>
      match body r with
      | Some b => if String.eqb b "" then "N/A" else String.substring 0 200 b
      | None => "N/A"
      end
  | None => "N/A"
  end.

Section WithHost.
Context (host : Host).

(** [new Date().toISOString()] *)
Definition timestamp_now : M State string :=
  let! now := gets clock in ret (toISOString host now).

(** [inputData ? JSON.stringify(inputData) : 'N/A'] *)
Definition input_text (inputData : Value) : string :=
  if truthy inputData then JSON_stringify host inputData else "N/A".

(** The [Input:] line of the frames, empty without input data. *)
Definition input_line (inputData : Value) : string :=
  if truthy inputData
  then "║ Input:        " +:+ JSON_stringify host inputData
  else "".

(** The template literals are written from the first column and end on
    the closing stroke, so that [trim] removes the line feed before the
    frame and the line feed and indentation after it, nothing else.  The
    read of [__ENV.ERROR_LOG_FILE] guards an empty block. *)
Definition logError (apiName : string) (response : option Response)
    (inputData : Value) (additionalContext : string) : M State unit :=
  let inputData := default_null inputData in
  let! timestamp := timestamp_now in
  let statusCode :=
    match response with Some r => VNum (status r) | None => VStr "N/A" end in
  let statusText :=
    match response with
    | Some r => VStr (status_text r)
    | None => VStr "N/A"
    end in
  let responseBody := response_body response in
  let errorEntry : ErrorEntry :=
    [("timestamp", VStr timestamp);
     ("apiName", VStr apiName);
     ("statusCode", statusCode);
     ("statusText", statusText);
     ("responseBody", VStr responseBody);
     ("inputData", VStr (input_text inputData));
     ("additionalContext", VStr additionalContext);
     ("vu", VNum (VU host));
     ("iter", VNum (ITER host))] in
  log LError
    (join nl
       ["╔" +:+ rule;
        "║ ERROR: " +:+ apiName;
        "╠" +:+ rule;
        "║ Time:         " +:+ timestamp;
        "║ VU:           " +:+ pretty (VU host);
        "║ Iteration:    " +:+ pretty (ITER host);
        "║ Status:       " +:+ to_string statusCode +:+ " "
          +:+ to_string statusText;
        "║ Response:     " +:+ responseBody;
        input_line inputData;
        if String.eqb additionalContext "" then ""
        else "║ Context:      " +:+ additionalContext;
        "╚" +:+ rule]) ;;;
  push errorEntry.

Definition logErrorWithInput (apiName : string) (response : option Response)
    (inputParams : Value) : M State unit :=
  logError apiName response inputParams "".

Definition logCorrelationFailure (apiName : string)
    (missingCorrelations : list string) (inputData : Value) : M State unit :=
  let inputData := default_null inputData in
  let! timestamp := timestamp_now in
  let errorEntry : ErrorEntry :=
    [("timestamp", VStr timestamp);
     ("apiName", VStr apiName);
     ("errorType", VStr "CORRELATION_FAILURE");
     ("missingCorrelations", VStr (join ", " missingCorrelations));
     ("inputData", VStr (input_text inputData));
     ("vu", VNum (VU host));
     ("iter", VNum (ITER host))] in
  log LError
    (join nl
       ["╔" +:+ rule;
        "║ CORRELATION FAILURE: " +:+ apiName;
        "╠" +:+ rule;
        "║ Time:         " +:+ timestamp;
        "║ VU:           " +:+ pretty (VU host);
        "║ Iteration:    " +:+ pretty (ITER host);
        "║ Missing:      " +:+ join ", " missingCorrelations;
        input_line inputData;
        "╚" +:+ rule]) ;;;
  push errorEntry.

(** The frame reads [response.status] without the guard that
    [responseBody] has. *)
Definition logValidationFailure (apiName validationMessage : string)
    (response : option Response) : M State unit :=
  let! timestamp := timestamp_now in
  let responseBody := response_body response in
  match response with
  | None => throw (TypeError "Cannot read property 'status' of null")
  | Some r =>
      log LError
        (join nl
           ["╔" +:+ rule;
            "║ VALIDATION FAILURE: " +:+ apiName;
            "╠" +:+ rule;
            "║ Time:         " +:+ timestamp;
            "║ VU:           " +:+ pretty (VU host);
            "║ Iteration:    " +:+ pretty (ITER host);
            "║ Failure:      " +:+ validationMessage;
            "║ Status:       " +:+ pretty (status r);
            "║ Response:     " +:+ responseBody;
            "╚" +:+ rule]) ;;;
      push [("timestamp", VStr timestamp);
            ("apiName", VStr apiName);
            ("errorType", VStr "VALIDATION_FAILURE");
            ("validationMessage", VStr validationMessage);
            ("statusCode", VNum (status r));
            ("responseBody", VStr responseBody);
            ("vu", VNum (VU host));
            ("iter", VNum (ITER host))]
  end.

End WithHost.

Definition getAllErrors : M State (list ErrorEntry) := gets errorLog.

Definition getErrorCount : M State Z :=
  gets (fun s => Z.of_nat (length (errorLog s))).

(** [e.apiName === apiName], for a name that is a string. *)
Definition filed_under (apiName : string) (e : ErrorEntry) : bool :=
  match obj_get "apiName" e with
  | Some (VStr name) => String.eqb name apiName
  | _ => false
  end.

Definition getErrorsByApi (apiName : string) : M State (list ErrorEntry) :=
  gets (fun s => List.filter (filed_under apiName) (errorLog s)).

(** [errorLog.length = 0] *)
Definition clearErrorLog : M State unit :=
  modify (fun s => mkState [] (clock s) (console s)).

End ErrorLogger.


(* ===================================================================== *)
(** * Specification vocabulary and scenarios: token cache *)
(* ===================================================================== *)

Module TokenManagerSpec.
Import TokenManager.
Local Open Scope Z_scope.

(** The outcome of a generation, seen from the cache. *)
Inductive Generation (s : State) : Completion Value -> State -> Prop :=
| generation_failed (r : Completion Value) (s' : State) :
    (forall tok, r = Return tok -> truthy tok = false) ->
    heap s' = heap s ->
    Generation s r s'
| generation_succeeded (tok : Value) (cfg : Config) (s' : State) :
    truthy tok = true ->
    config (cache s) = Some cfg ->
    heap s' =
      <[tokenCache s :=
          {| token := tok;
             generatedAt := Some (clock s');
             expiresAt := Some (clock s' + expirySeconds cfg * 1000);
             config := Some cfg |}]> (heap s) ->
    Generation s (Return tok) s'.

(** [generatedAt + expirySeconds * 1000 * 0.8] *)
Definition refreshThreshold (s : State) (cfg : Config) : Z :=
  to_number (generatedAt (cache s)) + times_0_8 (expirySeconds cfg * 1000).

(** The state in which [getToken] calls [generateToken]. *)
Definition refreshing (s : State) : State :=
  set_console
    (fun c => c ++ [(LLog, "[TOKEN] Token approaching expiry, refreshing...")])
    (set_refreshLock true s).

(** The fields a generation writes. *)
Definition token_fields (c : TokenCache) : Value * option Z * option Z :=
  (token c, generatedAt c, expiresAt c).


(** A serializer for the examples (texts without characters to escape). *)
Fixpoint stringify (v : Value) : string :=
  match v with
  | VUndefined | VNull => "null"
  | VBool true => "true"
  | VBool false => "false"
  | VNum n => pretty n
  | VStr s => dq +:+ s +:+ dq
  | VArr items => "[" +:+ join "," (map stringify items) +:+ "]"
  | VObj fields =>
      "{" +:+ join ","
                (map (fun kv => let '(k, x) := kv in
                                dq +:+ k +:+ dq +:+ ":" +:+ stringify x)
                     fields)
      +:+ "}"
  end.

(** The authentication endpoint answers [{"access_token":"tok-1"}]. *)
Definition token_response : Response :=
  {| status := 200;
     body := Some ("{" +:+ dq +:+ "access_token" +:+ dq +:+ ":" +:+ dq
                   +:+ "tok-1" +:+ dq +:+ "}");
     json := JsonOk (VObj [("access_token", VStr "tok-1")]);
     timings_duration := 40 |}.

(** What k6 delivers when the connection fails: status 0 and no body. *)
Definition no_response : Response :=
  {| status := 0; body := None;
     json := JsonError "unexpected end of JSON input";
     timings_duration := 0 |}.

(** A 503 with a text body. *)
Definition unavailable : Response :=
  {| status := 503; body := Some "Service Unavailable";
     json := JsonError "invalid character 'S'";
     timings_duration := 15 |}.

(** The endpoint answers the first request and is unreachable, or
    unavailable, afterwards. *)
Definition host_then (later : Response) : Host :=
  {| JSON_stringify := stringify;
     toISOString := fun t => pretty t +:+ "ms";
     http_request := fun n _ =>
       match n with
       | O => (token_response, 40)
       | _ => (later, 30000)
       end |}.

(** The module as loaded: one empty cache object, the lock clear. *)
Definition boot : State :=
  {| heap := {[ 0%nat := empty_cache ]}; tokenCache := 0%nat;
     refreshLock := false; clock := 1700000000000; console := [];
     requests := []; checks := [] |}.

(** The configuration of the usage example, 600 seconds of lifetime. *)
Definition credentials : RawConfig :=
  {| raw_url := Some "https://api.example.com/auth/token";
     raw_username := Some "admin"; raw_password := Some "secret";
     raw_expirySeconds := Some 600; raw_method := None;
     raw_bodyTemplate := None; raw_tokenPath := None; raw_headers := None |}.

(** The state [setup()] leaves, and the same state 480 seconds later, when
    80% of the 600 seconds have passed. *)
Definition ready (later : Response) : State :=
  (initTokenManager (host_then later) credentials boot).2.
Definition due (later : Response) : State :=
  (sleep 480000 (ready later)).2.

(** The request [generateToken] sends for a configuration. *)
Definition token_request (host : Host) (cfg : Config) : Request :=
  {| req_method := method cfg;
     req_url := url cfg;
     req_body :=
       if truthy (bodyTemplate cfg)
       then JSON_stringify host (bodyTemplate cfg)
       else JSON_stringify host
              (VObj [("username", VStr (username cfg));
                     ("password", VStr (password cfg))]);
     req_headers :=
       foldl (fun o kv => obj_set kv.1 kv.2 o)
             [("Content-Type", "application/json")]
             (entries (headers cfg));
     req_timeout := "30s";
     req_tags := [("name", "auth_token_generation")] |}.


(** [tokenCache.config] as [initTokenManager] builds it: the caller's fields
    with the defaults of the destructuring. *)
Definition applied_defaults (rc : RawConfig) : Config :=
  mkConfig (default "" (raw_url rc)) (default "" (raw_username rc))
    (default "" (raw_password rc)) (default 600 (raw_expirySeconds rc))
    (default "POST" (raw_method rc)) (default VNull (raw_bodyTemplate rc))
    (default "access_token" (raw_tokenPath rc))
    (default [] (raw_headers rc)).

(** The usage example without its [url]. *)
Definition no_url : RawConfig :=
  {| raw_url := None;
     raw_username := Some "admin"; raw_password := Some "secret";
     raw_expirySeconds := Some 600; raw_method := None;
     raw_bodyTemplate := None; raw_tokenPath := None; raw_headers := None |}.

(** An endpoint that is unavailable from the first request on. *)
Definition host_down : Host :=
  {| JSON_stringify := stringify;
     toISOString := fun t => pretty t +:+ "ms";
     http_request := fun _ _ => (unavailable, 15) |}.

(** What [setup()] returned in [ready]: a reference to the cache object of
    the setup context. *)
Definition setup_data : SetupData :=
  {| tokenManager := Some 0%nat; timestamp := 1700000000040 |}.

(** A worker's module instance after [setup()]: a cache object of its own,
    still empty, beside the object [setup()] filled. *)
Definition worker (later : Response) : State :=
  set_tokenCache 1 (set_heap (<[1%nat := empty_cache]>) (ready later)).

(** [due] while another caller holds the refresh lock. *)
Definition locked (later : Response) : State :=
  set_refreshLock true (due later).




End TokenManagerSpec.

(* ===================================================================== *)
(** * Scenarios: unique-data allocator *)
(* ===================================================================== *)

Module CsvManagerSpec.
Import CsvManager.
Local Open Scope Z_scope.

(** The scenario of the documentation: three records, VU 1. *)
Definition three_rows : list string := ["alice"; "bob"; "carol"].

(** A record with one column. *)
Definition user_record : list (string * Value) :=
  [("email", VStr "a@example.com")].


(** 1001 distinct records, enough for the first record of a second VU. *)
Definition many_rows : list nat := seq 0 1001.

End CsvManagerSpec.

(* ===================================================================== *)
(** * Specification vocabulary and scenarios: correlation store *)
(* ===================================================================== *)

Module CorrelationManagerSpec.
Import CorrelationManager.
Local Open Scope Z_scope.

(** An empty store at some time of day. *)
Definition fresh : State :=
  {| correlationStore := ∅; clock := 1700000000000; console := [] |}.

(** A response with the given status, body text and decoded body. *)
Definition answer (st : Z) (text : string) (decoded : Value) : Response :=
  {| status := st; body := Some text; json := JsonOk decoded;
     timings_duration := 12 |}.

(** The body [{"a":{"b":[{"c":42}]}}] and its decoding. *)
Definition nested_text : string :=
  "{" +:+ dq +:+ "a" +:+ dq +:+ ":{" +:+ dq +:+ "b" +:+ dq +:+ ":[{" +:+ dq
  +:+ "c" +:+ dq +:+ ":42}]}}".
Definition nested : Value :=
  VObj [("a", VObj [("b", VArr [VObj [("c", VNum 42)]])])].

(** The [errorMsg] of [extractAndStore]. *)
Definition failed_to_extract (correlationKey jsonPath : string) : string :=
  "[CORRELATION] Failed to extract '" +:+ correlationKey
  +:+ "' from path '" +:+ jsonPath +:+ "'".

(** [hasCorrelation(key)], read off the store: an entry with a value
    other than [null] and [undefined].  A member the store inherits has no
    [value]. *)
Definition present (s : State) (key : string) : bool :=
  match correlationStore s !! key with
  | Some stored => negb (is_nullish (value stored))
  | None => false
  end.

(** [getCorrelatedValue(key, d)], read off the store. *)
Definition found (key : string) (d : Value) (s : State) : Value :=
  match read_store key s with
  | OwnEntry stored => value stored
  | InheritedMember => VUndefined
  | NotStored => default_null d
  end.

(** A 200 whose body [{}] has no [id]. *)
Definition no_id : Response := answer 200 "{}" (VObj []).

(** The store after [storeCorrelation('id', 7)]. *)
Definition with_id : State := (storeCorrelation "id" (VNum 7) fresh).2.

(** ... and after [storeCorrelation('sub', 9)] as well. *)
Definition with_id_sub : State := (storeCorrelation "sub" (VNum 9) with_id).2.



(** The entry [storeCorrelation('id', 7)] writes in [fresh]. *)
Definition id_entry : Entry :=
  {| value := VNum 7; extractedAt := 1700000000000; source := "manual" |}.

End CorrelationManagerSpec.

(* ===================================================================== *)
(** * Scenarios: response validator *)
(* ===================================================================== *)

Module ValidatorsSpec.
Import Validators.
Local Open Scope Z_scope.

(** A response to a create call: the given status and duration, the body
    [{"id":"u1"}] and its decoding. *)
Definition created (st duration : Z) : Response :=
  {| status := st;
     body := Some ("{" +:+ dq +:+ "id" +:+ dq +:+ ":" +:+ dq +:+ "u1" +:+ dq
                   +:+ "}");
     json := JsonOk (VObj [("id", VStr "u1")]);
     timings_duration := duration |}.

(** [{apiName: 'Create_User', expectedStatus: 201, jsonSchema: {id: 'string'}}] *)
Definition create_user : Config :=
  {| apiName := Some "Create_User"; expectedStatus := 201;
     expectedStatuses := None; checkBody := false; bodyContains := None;
     bodyNotContains := None; jsonSchema := Some [("id", VStr "string")];
     customChecks := None; failFast := true |}.

(** The metrics before any sample. *)
Definition idle : State :=
  {| businessErrors := 0; businessErrorRate := []; checks := [];
     console := [] |}.

(** The samples the six checks of [create_user] leave for a response. *)
Definition create_user_samples (status_ok in_time : bool)
  : list CheckSample :=
  map (fun c => mkCheckSample c.1 [("api", "Create_User")] c.2)
      [("Create_User: status 201", status_ok);
       ("Create_User: response time < 5s", in_time);
       ("Create_User: has response body", true);
       ("Create_User: valid JSON response", true);
       ("Create_User: has field 'id'", true);
       ("Create_User: 'id' is string", true)].


(** The body decodes to an object or an array that holds [field] itself,
    with a value other than [null] and [undefined]. *)
Definition holds_field (field : string) (r : Response) : bool :=
  match json r with
  | JsonOk v =>
      match own_prop v field with
      | Some value => negb (is_nullish value)
      | None => false
      end
  | JsonError _ => false
  end.

(** What one element of a [batchValidate] list asks of a response. *)
Definition passes (response : Response) (validation : Validation) : bool :=
  match validation with
  | StatusIs value => bool_decide (status response = value)
  | FieldExists value => holds_field value response
  | ResponseTimeBelow value => (timings_duration response <? value)%Z
  | OtherType _ => false
  end.

(** The batch of the documentation, and a validation of a type the
    [switch] does not know. *)
Definition documented_batch : list Validation :=
  [StatusIs 201; FieldExists "id"; ResponseTimeBelow 1000; OtherType "size"].

(** A validation that names a field names an ordinary one. *)
Definition ordinary_validation (validation : Validation) : Prop :=
  match validation with
  | FieldExists value => ordinary value = true
  | _ => True
  end.

(** The validations whose [type] the [switch] knows. *)
Definition known (validation : Validation) : bool :=
  match validation with OtherType _ => false | _ => true end.

(** The [checks] object [validateResponse] has built when it calls
    [check]. *)
Definition built_checks (apiName : string) (config : Config) : Checks :=
  let checks : Checks := [] in
  let checks :=
    match expectedStatuses config with
    | Some expectedStatuses =>
        obj_set (apiName +:+ ": status in ["
                 +:+ join "," (map pretty expectedStatuses) +:+ "]")
                (total (fun r => bool_decide (status r ∈ expectedStatuses)))
                checks
    | None =>
        obj_set (apiName +:+ ": status " +:+ pretty (expectedStatus config))
                (total (fun r => bool_decide (status r = expectedStatus config)))
                checks
    end in
  let checks :=
    obj_set (apiName +:+ ": response time < 5s")
            (total (fun r => (timings_duration r <? 5000)%Z)) checks in
  let checks :=
    if checkBody config || texts_given (bodyContains config)
       || bool_decide (is_Some (jsonSchema config))
    then obj_set (apiName +:+ ": has response body") (total body_nonempty) checks
    else checks in
  let checks :=
    if texts_given (bodyContains config) then
      foldl (fun checks text =>
               obj_set (apiName +:+ ": body contains '" +:+ text +:+ "'")
                       (total (body_includes text)) checks)
            checks (from_option as_list [] (bodyContains config))
    else checks in
  let checks :=
    if texts_given (bodyNotContains config) then
      foldl (fun checks text =>
               obj_set (apiName +:+ ": body does not contain '"
                        +:+ text +:+ "'")
                       (total (body_excludes text)) checks)
            checks (from_option as_list [] (bodyNotContains config))
    else checks in
  let checks :=
    match jsonSchema config with
    | Some schema => schema_checks apiName schema checks
    | None => checks
    end in
  match customChecks config with
  | Some custom =>
      foldl (fun checks cf =>
               obj_set (apiName +:+ ": " +:+ cf.1) cf.2 checks)
            checks (entries custom)
  | None => checks
  end.

(** What a predicate decides for a response: a predicate that throws is
    recorded as failed. *)
Definition verdict (val : Response) (p : Predicate) : bool :=
  match p val with inr passed => passed | inl _ => false end.

(** The predicate of a check returns for the response. *)
Definition returns (val : Response) (c : string * Predicate) : Prop :=
  exists passed, c.2 val = inr passed.

(** A custom check in the manner of the documentation,
    [(r) => r.json('email').includes('@')]: it throws when the body does
    not decode, and when it holds no text under [email]. *)
Definition email_format_valid : Predicate := fun r =>
  match json r with
  | JsonOk (VObj fields) =>
      match obj_get "email" fields with
      | Some (VStr email) => inr (includes "@" email)
      | _ => inl (TypeError "Cannot read property 'includes' of undefined")
      end
  | JsonOk _ =>
      inl (TypeError "Cannot read property 'includes' of undefined")
  | JsonError message => inl (Error message)
  end.

(** [create_user] with that custom check. *)
Definition create_user_email : Config :=
  {| apiName := Some "Create_User"; expectedStatus := 201;
     expectedStatuses := None; checkBody := false; bodyContains := None;
     bodyNotContains := None; jsonSchema := None;
     customChecks := Some [("email format valid", email_format_valid)];
     failFast := true |}.

(** A 500 whose body [{"error":"boom"}] has no [email]. *)
Definition server_error : Response :=
  {| status := 500;
     body := Some ("{" +:+ dq +:+ "error" +:+ dq +:+ ":" +:+ dq +:+ "boom"
                   +:+ dq +:+ "}");
     json := JsonOk (VObj [("error", VStr "boom")]);
     timings_duration := 30 |}.

(** No custom check of the configuration throws for the response. *)
Definition customChecks_return (config : Config) (val : Response) : Prop :=
  from_option (Forall (returns val)) True (customChecks config).

End ValidatorsSpec.

(* ===================================================================== *)
(** * Specification vocabulary: error log *)
(* ===================================================================== *)

Module ErrorLoggerSpec.
Import ErrorLogger.
Local Open Scope Z_scope.

(** One call of a logging function of the module. *)
Inductive LogCall : Type :=
| LogError (apiName : string) (response : option Response)
    (inputData : Value) (additionalContext : string)
| LogErrorWithInput (apiName : string) (response : option Response)
    (inputParams : Value)
| LogCorrelationFailure (apiName : string)
    (missingCorrelations : list string) (inputData : Value)
| LogValidationFailure (apiName validationMessage : string)
    (response : option Response).

Definition run_call (host : Host) (call : LogCall) : M State unit :=
  match call with
  | LogError apiName response inputData additionalContext =>
      logError host apiName response inputData additionalContext
  | LogErrorWithInput apiName response inputParams =>
      logErrorWithInput host apiName response inputParams
  | LogCorrelationFailure apiName missingCorrelations inputData =>
      logCorrelationFailure host apiName missingCorrelations inputData
  | LogValidationFailure apiName validationMessage response =>
      logValidationFailure host apiName validationMessage response
  end.

(** The API a call reports. *)
Definition reported_api (call : LogCall) : string :=
  match call with
  | LogError apiName _ _ _ | LogErrorWithInput apiName _ _
  | LogCorrelationFailure apiName _ _ | LogValidationFailure apiName _ _ =>
      apiName
  end.

(** A validation failure reported without a response. *)
Definition lacks_response (call : LogCall) : bool :=
  match call with
  | LogValidationFailure _ _ None => true
  | _ => false
  end.

End ErrorLoggerSpec.


(* ===================================================================== *)
(** * The JavaScript primitives on examples *)
(* ===================================================================== *)

Module JsFacts.

Example split_path : split "." "a.b[0].c" = ["a"; "b[0]"; "c"].
Proof. reflexivity. Qed.

Example split_empty : split "." "" = [""].
Proof. reflexivity. Qed.

Example array_index_canonical :
  map array_index ["0"; "7"; "07"; "4294967294"; "4294967295"; "id"]
  = [Some 0; Some 7; None; Some 4294967294; None; None]%N.
Proof. reflexivity. Qed.

Example entries_order :
  entries [("b", 1); ("10", 2); ("2", 3); ("a", 4)]
  = [("2", 3); ("10", 2); ("b", 1); ("a", 4)].
Proof. reflexivity. Qed.

Example obj_set_keeps_position :
  obj_set "b" 9 [("b", 1); ("a", 4)] = [("b", 9); ("a", 4)]
  /\ obj_set "c" 9 [("b", 1); ("a", 4)] = [("b", 1); ("a", 4); ("c", 9)].
Proof. split; reflexivity. Qed.

Example replace_first_only :
  replace "{id}" "7" "/x/{id}/y/{id}" = "/x/7/y/{id}".
Proof. reflexivity. Qed.

Example replace_dollar_patterns :
  replace "{id}" "<$&|$$>" "/x/{id}" = "/x/<{id}|$>".
Proof. reflexivity. Qed.

Example replace_absent : replace "{id}" "7" "/x/y" = "/x/y".
Proof. reflexivity. Qed.

Example includes_examples :
  includes "user_id" "{user_id:1}" = true
  /\ includes "" "" = true
  /\ includes "id" "" = false.
Proof. repeat split; reflexivity. Qed.

Example to_string_array :
  to_string (VArr [VNum 1; VNull; VStr "a"; VArr [VBool true; VNum (-2)]])
  = "1,,a,true,-2".
Proof. reflexivity. Qed.

Example get_prop_examples :
  get_prop (VArr [VStr "x"; VStr "y"]) "1" = inr (VStr "y")
  /\ get_prop (VArr [VStr "x"; VStr "y"]) "length" = inr (VNum 2)
  /\ get_prop (VStr "tok") "length" = inr (VNum 3)
  /\ get_prop (VObj [("id", VNum 7)]) "name" = inr VUndefined
  /\ get_prop VNull "id"
     = inl (TypeError "Cannot read property 'id' of null").
Proof. repeat split; reflexivity. Qed.

Lemma default_null_not_undefined v : default_null v <> VUndefined.
Proof. by destruct v. Qed.

Lemma default_null_id v : v <> VUndefined -> default_null v = v.
Proof. by destruct v. Qed.


(** ** Objects as insertion-ordered lists *)

Lemma obj_get_set_eq {A} k (v : A) o : obj_get k (obj_set k v o) = Some v.
Proof.
  induction o as [|[k' v'] o IH]; simpl; [by rewrite String.eqb_refl|].
  destruct (String.eqb_spec k k') as [->|Hne]; simpl.
  - by rewrite String.eqb_refl.
  - by destruct (String.eqb_spec k k').
Qed.

Lemma obj_get_set_ne {A} k k' (v : A) o :
  k' <> k -> obj_get k' (obj_set k v o) = obj_get k' o.
Proof.
  intros Hne. induction o as [|[k2 v2] o IH]; simpl.
  - by destruct (String.eqb_spec k' k).
  - destruct (String.eqb_spec k k2) as [->|Hk]; simpl.
    + by destruct (String.eqb_spec k' k2).
    + destruct (String.eqb_spec k' k2); [done|apply IH].
Qed.

Lemma obj_get_In {A} k (v : A) o : obj_get k o = Some v -> In (k, v) o.
Proof.
  induction o as [|[k' v'] o IH]; simpl; [done|].
  destruct (String.eqb_spec k k') as [->|_]; [intros [= ->]; by left|].
  intros H. right. by apply IH.
Qed.

Lemma obj_get_foldl {A B} (g : B -> string) (h : B -> A) k l o :
  (forall x, k <> g x) ->
  obj_get k (foldl (fun o x => obj_set (g x) (h x) o) o l) = obj_get k o.
Proof.
  intros Hne. revert o. induction l as [|x l IH]; intros o; [done|].
  simpl. rewrite IH. by apply obj_get_set_ne.
Qed.

Lemma In_obj_set {A} k (v : A) o kv :
  In kv (obj_set k v o) -> kv = (k, v) \/ In kv o.
Proof.
  induction o as [|[k' v'] o IH]; simpl.
  - intros [<-|[]]. by left.
  - destruct (String.eqb k k'); simpl.
    + intros [<-|H]; [by left|right; by right].
    + intros [<-|H]; [right; by left|].
      destruct (IH H) as [->|]; [by left|right; by right].
Qed.

Lemma In_obj_set_new {A} k (v : A) o : In (k, v) (obj_set k v o).
Proof. apply obj_get_In, obj_get_set_eq. Qed.

Lemma In_obj_set_other {A} k (v : A) o k' v' :
  k' <> k -> In (k', v') o -> In (k', v') (obj_set k v o).
Proof.
  intros Hne. induction o as [|[k2 v2] o IH]; simpl; [done|].
  destruct (String.eqb_spec k k2) as [->|_]; simpl.
  - intros [[= <- <-]|H]; [done|by right].
  - intros [H|H]; [by left|right; by apply IH].
Qed.

(** ** Enumeration order does not change what is enumerated *)

Lemma insert_index_perm {A} n (kv : string * A) l :
  map snd (insert_index n kv l) ≡ₚ kv :: map snd l.
Proof.
  induction l as [|[m kv'] l IH]; simpl; [done|].
  destruct (n <? m)%N; simpl; [done|].
  rewrite IH. apply Permutation_swap.
Qed.

Lemma entries_perm {A} (o : list (string * A)) : entries o ≡ₚ o.
Proof.
  unfold entries. induction o as [|[k v] o IH]; [done|].
  simpl. unfold is_index_key at 1. simpl.
  destruct (array_index k); simpl.
  - rewrite insert_index_perm. simpl. by constructor.
  - rewrite <- Permutation_middle. by constructor.
Qed.

Lemma forallb_perm {A} (f : A -> bool) l l' :
  l ≡ₚ l' -> forallb f l = forallb f l'.
Proof.
  induction 1 as [|x l l' _ IH|x y l|l l' l'' _ IH1 _ IH2]; simpl.
  - done.
  - by rewrite IH.
  - by destruct (f x), (f y).
  - by rewrite IH1.
Qed.

Lemma forallb_of_map {A B} (f : B -> bool) (g : A -> B) l :
  forallb f (map g l) = forallb (fun x => f (g x)) l.
Proof. induction l as [|x l IH]; simpl; [done|by rewrite IH]. Qed.

Lemma entries_singleton {A} (k : string) (v : A) : entries [(k, v)] = [(k, v)].
Proof.
  unfold entries, is_index_key. simpl. by destruct (array_index k).
Qed.

(** A conjunction over an object built by assignments under distinct
    keys is the conjunction over what was assigned. *)
Lemma forallb_foldl_obj_set {V B} (g : B -> string) (h : B -> V)
    (ev : V -> bool) (l : list B) :
  Inj (=) (=) g ->
  forallb (fun ck => ev ck.2)
          (foldl (fun o x => obj_set (g x) (h x) o) [] l)
  = forallb (fun x => ev (h x)) l.
Proof.
  intros Hinj.
  assert (Hinv : forall l0 o,
    (forall kv, In kv o -> exists x, In x l0 /\ kv = (g x, h x)) ->
    (forall x, In x l0 -> In (g x, h x) o) ->
    let o' := foldl (fun o x => obj_set (g x) (h x) o) o l in
    (forall kv, In kv o' -> exists x, In x (l0 ++ l) /\ kv = (g x, h x))
    /\ (forall x, In x (l0 ++ l) -> In (g x, h x) o')).
  { induction l as [|y l IH]; intros l0 o H1 H2; simpl.
    - rewrite app_nil_r. by split.
    - replace (l0 ++ y :: l) with ((l0 ++ [y]) ++ l)
        by (by rewrite <- app_assoc).
      apply IH.
      + intros kv [->|Hin]%In_obj_set.
        * exists y. split; [|done]. apply in_or_app. right. by left.
        * destruct (H1 kv Hin) as (x & Hx & ->). exists x.
          split; [|done]. apply in_or_app. by left.
      + intros x [Hx|[<-|[]]]%in_app_or; [|apply In_obj_set_new].
        destruct (decide (g x = g y)) as [Heq|Hne].
        * apply Hinj in Heq as ->. apply In_obj_set_new.
        * apply In_obj_set_other; [done|by apply H2]. }
  destruct (Hinv [] []) as [H1 H2]; [by intros ? []|by intros ? []|].
  simpl in H1, H2. apply eq_true_iff_eq. rewrite !forallb_forall. split.
  - intros Hall x Hx. apply (Hall (g x, h x)). by apply H2.
  - intros Hall kv Hkv. destruct (H1 kv Hkv) as (x & Hx & ->). by apply Hall.
Qed.

(** ** Strings *)

Lemma includes_cons text c s :
  includes text (String c s) = false -> includes text s = false.
Proof. simpl. by intros [_ ?]%orb_false_iff. Qed.

Lemma includes_char_head (c d : ascii) s :
  includes (String c "") (String d s) = false -> c <> d.
Proof.
  simpl. intros [H _]%orb_false_iff ->.
  destruct (ascii_dec d d); [|done]. by destruct s.
Qed.

Lemma append_cons c (s t : string) : String c s +:+ t = String c (s +:+ t).
Proof. reflexivity. Qed.

Lemma append_nil_l (t : string) : "" +:+ t = t.
Proof. reflexivity. Qed.

Lemma append_assoc (s t u : string) : (s +:+ t) +:+ u = s +:+ t +:+ u.
Proof.
  induction s as [|c s IH]; [done|]. by rewrite !append_cons, IH.
Qed.

Lemma prefix_append (s t : string) : String.prefix s (s +:+ t) = true.
Proof.
  induction s as [|c s IH]; [by destruct t|].
  rewrite append_cons. simpl. by destruct (ascii_dec c c).
Qed.

Lemma string_drop_append (s t : string) :
  string_drop (String.length s) (s +:+ t) = t.
Proof. induction s as [|c s IH]; [done|]. by rewrite append_cons. Qed.

Lemma drop_last_append (s : string) c : drop_last (s +:+ String c "") = s.
Proof.
  induction s as [|d s IH]; [done|]. rewrite append_cons. simpl.
  rewrite IH. destruct s; [done|]. by rewrite append_cons.
Qed.

Lemma find_eq (pat s : string) :
  find pat s
  = if String.prefix pat s
    then Some ("", string_drop (String.length pat) s)
    else match s with
         | "" => None
         | String c s' =>
             match find pat s' with
             | Some (before, after) => Some (String c before, after)
             | None => None
             end
         end.
Proof. by destruct s. Qed.

Lemma prefix_head_differs (a b : ascii) (s t : string) :
  a <> b -> String.prefix (String a s) (String b t) = false.
Proof.
  intros Hne.
  change (String.prefix (String a s) (String b t))
    with (if ascii_dec a b then String.prefix s t else false).
  by destruct (ascii_dec a b).
Qed.

Lemma find_after_plain_prefix (pre key post : string) :
  includes "{" pre = false ->
  find (String "{" key) (pre +:+ String "{" key +:+ post) = Some (pre, post).
Proof.
  intros Hno. induction pre as [|c pre IH].
  - rewrite append_nil_l, find_eq, prefix_append. by rewrite string_drop_append.
  - rewrite append_cons, find_eq.
    pose proof (includes_char_head _ _ _ Hno) as Hne.
    rewrite prefix_head_differs by done.
    rewrite IH; [done|]. by apply includes_cons in Hno.
Qed.

Lemma get_substitution_plain (matched before after rep : string) :
  includes "$" rep = false ->
  get_substitution matched before after rep = rep.
Proof.
  induction rep as [|c rep IH]; [done|]. intros Hno.
  pose proof (includes_char_head _ _ _ Hno) as Hne.
  apply includes_cons in Hno.
  transitivity (String c (get_substitution matched before after rep));
    [|by rewrite IH].
  destruct c as [[] [] [] [] [] [] [] []]; try reflexivity.
  by destruct Hne.
Qed.

Lemma replace_after_plain_prefix (pre key post rep : string) :
  includes "{" pre = false ->
  includes "$" rep = false ->
  replace (String "{" key) rep (pre +:+ String "{" key +:+ post)
  = pre +:+ rep +:+ post.
Proof.
  intros Hpre Hrep. unfold replace.
  rewrite find_after_plain_prefix by done.
  by rewrite get_substitution_plain.
Qed.

Lemma append_quote_inj (x y : string) : x +:+ "'" = y +:+ "'" -> x = y.
Proof.
  revert y. induction x as [|c x IH]; intros [|d y]; simpl; try done.
  - destruct y; discriminate.
  - destruct x; discriminate.
  - intros [= -> H]. f_equal. by apply IH.
Qed.

End JsFacts.

(* ===================================================================== *)
(** * Properties of the token cache *)
(* ===================================================================== *)

Module TokenManagerFacts.
Import TokenManager TokenManagerSpec.
Local Open Scope Z_scope.

(** ** The refresh threshold *)

(** 80% of a lifetime of [L] seconds is [800 * L] milliseconds. *)
Lemma times_0_8_seconds (L : Z) : times_0_8 (L * 1000) = 800 * L.
Proof.
  unfold times_0_8. replace (L * 1000 * 8) with (800 * L * 10) by lia.
  apply Z.div_mul. lia.
Qed.

Section WithHost.
Context (host : Host).

(** ** What one call of [generateToken] does *)

Ltac run :=
  unfold bind, ret, throw, gets, modify, log, Date_now, sleep, update_cache,
    request, check;
  simpl.

Ltac failed :=
  apply generation_failed;
  [intros tok' Hr; inversion Hr; subst; auto | reflexivity].

Lemma generateToken_spec (s : State) :
  Generation s (generateToken host s).1 (generateToken host s).2
  /\ tokenCache (generateToken host s).2 = tokenCache s
  /\ refreshLock (generateToken host s).2 = refreshLock s
  /\ (forall cfg, config (cache s) = Some cfg ->
      exists r, requests (generateToken host s).2 = requests s ++ [r]).
Proof.
  unfold generateToken. run.
  destruct (config (cache s)) as [cfg|] eqn:Hcfg.
  2:{ simpl. repeat split; [failed|]. intros ? [=]. }
  run.
  destruct (http_request host _ _) as [res elapsed]. simpl.
  match goal with |- context [negb ?b] => destruct b end; simpl.
  - destruct (token_at _ res) as [e|tok]; simpl.
    + repeat split; [failed|eauto].
    + destruct (truthy tok) eqn:Htok; simpl.
      * repeat split; [|eauto].
        eapply generation_succeeded; eauto.
        unfold cache in *. simpl. by rewrite Hcfg.
      * repeat split; [failed|eauto].
  - destruct (body res); simpl.
    + repeat split; [failed|eauto].
    + repeat split; [failed|eauto].
Qed.

(** Frame conditions of [generateToken], in the form the later proofs use. *)
Lemma generateToken_run (s : State) r s' :
  generateToken host s = (r, s') ->
  Generation s r s' /\ tokenCache s' = tokenCache s
  /\ refreshLock s' = refreshLock s
  /\ (forall cfg, config (cache s) = Some cfg ->
      exists q, requests s' = requests s ++ [q]).
Proof.
  intros H. pose proof (generateToken_spec s) as Hs.
  by rewrite H in Hs.
Qed.

(** ** [getToken] on an initialized cache *)

Lemma cache_refreshing s : cache (refreshing s) = cache s.
Proof. reflexivity. Qed.

Lemma getToken_still_valid s data cfg :
  config (cache s) = Some cfg ->
  clock s < refreshThreshold s cfg ->
  getToken host data s = (Return (token (cache s)), s).
Proof.
  intros Hcfg Hlt. unfold getToken. run. rewrite Hcfg. simpl.
  rewrite Hcfg. unfold refreshThreshold in Hlt.
  destruct (Z.leb_spec (to_number (generatedAt (cache s))
                        + times_0_8 (expirySeconds cfg * 1000)) (clock s));
    [lia|reflexivity].
Qed.

Lemma getToken_refresh s data cfg :
  config (cache s) = Some cfg ->
  refreshThreshold s cfg <= clock s ->
  refreshLock s = false ->
  getToken host data s
  = match generateToken host (refreshing s) with
    | (Return newToken, s') =>
        if truthy newToken
        then (Return newToken, set_refreshLock false s')
        else (Return (token (cache s')),
              set_console
                (fun c => c ++
                   [(LWarn, "[TOKEN] Refresh failed, using existing token")])
                (set_refreshLock false s'))
    | (Throw e, s') => (Throw e, s')
    | (Abort reason, s') => (Abort reason, s')
    end.
Proof.
  intros Hcfg Hge Hlock. unfold getToken. run. rewrite Hcfg. simpl.
  rewrite Hcfg. unfold refreshThreshold in Hge.
  destruct (Z.leb_spec (to_number (generatedAt (cache s))
                        + times_0_8 (expirySeconds cfg * 1000)) (clock s));
    [|lia].
  rewrite Hlock. simpl. fold (refreshing s).
  destruct (generateToken host (refreshing s)) as [[newToken|e|reason] s'];
    try reflexivity.
  simpl. by destruct (truthy newToken).
Qed.

(** C2. Let the cache be initialized, with generation timestamp [t0] and
    a lifetime of [L] seconds.  A call of [getToken] strictly before
    [t0 + 0.8 * L] (in milliseconds, [t0 + 800 * L]) issues no request,
    changes nothing and returns the cached token.  A call at or after that
    time, with the refresh lock clear, issues exactly one token request. *)
Theorem getToken_refresh_threshold (s : State) (data : option SetupData)
    (cfg : Config) (t0 : Z) :
  config (cache s) = Some cfg ->
  generatedAt (cache s) = Some t0 ->
  (clock s < t0 + 800 * expirySeconds cfg ->
   getToken host data s = (Return (token (cache s)), s))
  /\ (t0 + 800 * expirySeconds cfg <= clock s ->
      refreshLock s = false ->
      exists q, requests (getToken host data s).2 = requests s ++ [q]).
Proof.
  intros Hcfg Ht0.
  assert (Hthr : refreshThreshold s cfg = t0 + 800 * expirySeconds cfg).
  { unfold refreshThreshold. by rewrite Ht0, times_0_8_seconds. }
  split.
  - intros Hlt. apply (getToken_still_valid s data cfg); [done|lia].
  - intros Hge Hlock.
    rewrite (getToken_refresh s data cfg) by (done || lia).
    destruct (generateToken host (refreshing s)) as [r s'] eqn:Hg.
    apply generateToken_run in Hg as (_ & _ & _ & Hreq).
    destruct (Hreq cfg Hcfg) as [q Hq]. exists q.
    destruct r as [newToken| |]; [destruct (truthy newToken)|..]; exact Hq.
Qed.

(** ** A refresh that fails *)

(** When the refresh fails by returning [null], [getToken] warns, releases
    the lock and returns the token it had. *)
Lemma getToken_refresh_failed s data cfg s' :
  config (cache s) = Some cfg ->
  refreshThreshold s cfg <= clock s ->
  refreshLock s = false ->
  generateToken host (refreshing s) = (Return VNull, s') ->
  getToken host data s
  = (Return (token (cache s)),
     set_console
       (fun c => c ++
          [(LWarn, "[TOKEN] Refresh failed, using existing token")])
       (set_refreshLock false s')).
Proof.
  intros Hcfg Hge Hlock Hg.
  rewrite (getToken_refresh s data cfg) by done. rewrite Hg. simpl.
  apply generateToken_run in Hg as (Hgen & Htc & _).
  inversion Hgen as [? ? _ Hheap|? ? ? Htrue]; subst; [|discriminate].
  unfold cache. by rewrite Hheap, Htc.
Qed.

(** On a host whose responses always carry a text body, [generateToken]
    returns whenever the cache has a configuration. *)
Lemma generateToken_returns s cfg :
  (forall n q, is_Some (body (http_request host n q).1)) ->
  config (cache s) = Some cfg ->
  exists tok, (generateToken host s).1 = Return tok.
Proof.
  intros Hbody Hcfg. unfold generateToken. run. rewrite Hcfg. run.
  match goal with
  | |- context [http_request host ?n ?q] =>
      specialize (Hbody n q); destruct (http_request host n q) as [res elapsed]
  end.
  simpl in *. destruct Hbody as [b Hb].
  match goal with |- context [negb ?b] => destruct b end; simpl.
  - destruct (token_at _ res) as [e|tok]; simpl; eauto.
    destruct (truthy tok); simpl; eauto.
  - rewrite Hb. simpl. eauto.
Qed.

(** ... and then an initialized [getToken] never fails its caller. *)
Lemma getToken_returns s data cfg :
  (forall n q, is_Some (body (http_request host n q).1)) ->
  config (cache s) = Some cfg ->
  exists tok, (getToken host data s).1 = Return tok.
Proof.
  intros Hbody Hcfg. unfold getToken. run. rewrite Hcfg. simpl.
  rewrite Hcfg.
  destruct (_ <=? _); [|simpl; eauto].
  destruct (refreshLock s) eqn:Hlock; simpl; [eauto|].
  fold (refreshing s).
  destruct (generateToken_returns (refreshing s) cfg Hbody Hcfg) as [tok Htok].
  destruct (generateToken host (refreshing s)) as [r s']. simpl in Htok.
  subst r. simpl. destruct (truthy tok); simpl; eauto.
Qed.





(** ** Initialization followed by [getToken] *)

(** X10. With a positive lifetime, the [getToken] that follows a successful
    [initTokenManager] finds the token of the initial generation still
    valid: it returns that token and does nothing else. *)
Lemma initTokenManager_then_getToken (rc : RawConfig) (s s1 : State)
    (d : SetupData) (data : option SetupData) :
  initTokenManager host rc s = (Return d, s1) ->
  0 < default 600 (raw_expirySeconds rc) ->
  truthy (token (cache s1)) = true
  /\ generatedAt (cache s1) = Some (clock s1)
  /\ getToken host data s1 = (Return (token (cache s1)), s1).
Proof.
  intros Hinit Hpos. revert Hinit. unfold initTokenManager. run.
  destruct (falsy_string (raw_url rc)); [discriminate|].
  destruct (falsy_string (raw_username rc) || falsy_string (raw_password rc));
    [discriminate|].
  run.
  match goal with
  | |- context [generateToken host ?s0] =>
      set (sa := s0); destruct (generateToken host sa) as [r s'] eqn:Hg
  end.
  destruct r as [tok| |]; try discriminate.
  destruct (truthy tok) eqn:Htok; simpl; [|discriminate].
  intros [= <- <-].
  pose proof (generateToken_spec sa) as (Hgen & Htc & _).
  rewrite Hg in Hgen, Htc. simpl in Hgen, Htc.
  inversion Hgen as [? ? Hfail|? cfg ? _ Hcfg Hheap]; subst.
  { rewrite (Hfail tok eq_refl) in Htok. discriminate. }
  assert (Hcache : cache s' = {| token := tok;
                                 generatedAt := Some (clock s');
                                 expiresAt :=
                                   Some (clock s' + expirySeconds cfg * 1000);
                                 config := Some cfg |}).
  { unfold cache. by rewrite Htc, Hheap, lookup_total_insert_eq. }
  assert (Hexp : expirySeconds cfg = default 600 (raw_expirySeconds rc)).
  { subst sa. unfold cache in Hcfg. simpl in Hcfg.
    rewrite lookup_total_insert_eq in Hcfg. simpl in Hcfg.
    by injection Hcfg as <-. }
  match goal with
  | |- context [getToken host data ?s1] => set (sf := s1)
  end.
  assert (Hc1 : cache sf = cache s') by reflexivity.
  assert (Hk1 : clock sf = clock s') by reflexivity.
  split; [by rewrite Hc1, Hcache|].
  split; [by rewrite Hc1, Hk1, Hcache|].
  apply (getToken_still_valid _ data cfg); [by rewrite Hc1, Hcache|].
  unfold refreshThreshold. rewrite Hc1, Hk1, Hcache. simpl.
  rewrite times_0_8_seconds. lia.
Qed.

End WithHost.

(** ** Only a generation writes the token fields *)

Section OnlyGeneration.
Context (host : Host).

Ltac run :=
  unfold bind, ret, throw, gets, modify, log, Date_now, sleep, update_cache,
    request, check;
  simpl.







End OnlyGeneration.

(** ** A run against an endpoint that answers once *)

Example ready_cache :
  cache (ready no_response)
  = {| token := VStr "tok-1";
       expiresAt := Some 1700000600040;
       generatedAt := Some 1700000000040;
       config := Some (mkConfig "https://api.example.com/auth/token" "admin"
                         "secret" 600 "POST" VNull "access_token" []) |}.
Proof. vm_compute. reflexivity. Qed.

Example getToken_ready :
  getToken (host_then no_response) None (ready no_response)
  = (Return (VStr "tok-1"), ready no_response).
Proof. vm_compute. reflexivity. Qed.

(** One millisecond before the threshold nothing is requested. *)
Example getToken_just_before :
  requests (getToken (host_then no_response) None
              (sleep 479999 (ready no_response)).2).2
  = requests (ready no_response).
Proof. vm_compute. reflexivity. Qed.

Lemma getToken_refresh_threshold_witness :
  getToken (host_then unavailable) None (ready unavailable)
  = (Return (token (cache (ready unavailable))), ready unavailable)
  /\ exists q,
       requests (getToken (host_then unavailable) None (due unavailable)).2
       = requests (due unavailable) ++ [q].
Proof.
  split.
  - apply (getToken_refresh_threshold (host_then unavailable)
             (ready unavailable) None
             (mkConfig "https://api.example.com/auth/token" "admin" "secret"
                600 "POST" VNull "access_token" [])
             1700000000040);
      [vm_compute; reflexivity | vm_compute; reflexivity
       | vm_compute; reflexivity].
  - apply (getToken_refresh_threshold (host_then unavailable)
             (due unavailable) None
             (mkConfig "https://api.example.com/auth/token" "admin" "secret"
                600 "POST" VNull "access_token" [])
             1700000000040);
      [vm_compute; reflexivity | vm_compute; reflexivity
       | vm_compute; discriminate | vm_compute; reflexivity].
Defined.


(** A refresh answered by a 503 with a text body: the stale token is
    returned, with a warning, and the lock is released. *)
Example getToken_refresh_unavailable :
  (getToken (host_then unavailable) None (due unavailable)).1
  = Return (VStr "tok-1")
  /\ last (console (getToken (host_then unavailable) None
                      (due unavailable)).2)
     = Some (LWarn, "[TOKEN] Refresh failed, using existing token")
  /\ refreshLock (getToken (host_then unavailable) None
                    (due unavailable)).2 = false.
Proof. repeat split; vm_compute; reflexivity. Qed.

(** C9, evaluated on the code.  The cache is initialized and the refresh
    is due, the lock is clear, and the token request fails for lack of a
    connection: k6 delivers status 0 and a [null] body.  The failure
    report of [generateToken] reads [res.body.substring], the TypeError
    escapes [getToken] instead of the stale token being returned, the
    last line on the console is the announcement of the request (no
    warning follows) and the refresh lock stays set. *)
Theorem getToken_refresh_without_body_throws :
  config (cache (due no_response)) <> None
  /\ token (cache (due no_response)) = VStr "tok-1"
  /\ refreshLock (due no_response) = false
  /\ (getToken (host_then no_response) None (due no_response)).1
     = Throw (TypeError "Cannot read property 'substring' of null")
  /\ last (console (getToken (host_then no_response) None
                      (due no_response)).2)
     = Some (LLog, "[TOKEN] Generating new token from "
                   +:+ "https://api.example.com/auth/token...")
  /\ refreshLock (getToken (host_then no_response) None
                    (due no_response)).2 = true.
Proof. repeat split; vm_compute; (reflexivity || discriminate). Qed.


(** ** The life cycle of the cache *)

Section Lifecycle.
Context (host : Host).

Ltac run :=
  unfold bind, ret, throw, gets, modify, log, Date_now, sleep, update_cache,
    request, check;
  simpl.

(** A generation returns a usable token exactly when the response passes
    both checks and the walk along [tokenPath] ends on it. *)
Lemma generateToken_response (s : State) (cfg : Config) :
  config (cache s) = Some cfg ->
  let res := (http_request host (length (requests s))
                (token_request host cfg)).1 in
  let ok := bool_decide (status res = 200 \/ status res = 201) in
  (forall tok, (generateToken host s).1 = Return tok -> truthy tok = true ->
     ok = true /\ token_at (tokenPath cfg) res = inr tok)
  /\ (forall tok, ok = true -> token_at (tokenPath cfg) res = inr tok ->
      truthy tok = true -> (generateToken host s).1 = Return tok).
Proof.
  intros Hcfg res ok. subst res ok. unfold generateToken. run. rewrite Hcfg.
  run. fold (token_request host cfg).
  destruct (http_request host _ _) as [res elapsed]. simpl.
  destruct (bool_decide (status res = 200 \/ status res = 201));
    destruct (token_at (tokenPath cfg) res) as [e|tok'] eqn:Htok;
    try destruct tok'; try destruct (body res); simpl;
    (split; [intros tok Hr Ht|intros tok Hok Hat Ht]);
    simplify_eq/=; try done;
    repeat match goal with
           | H : context [if ?b then _ else _] |- _ => destruct b eqn:?
           | |- context [if ?b then _ else _] => destruct b eqn:?
           end; simplify_eq/=; try done;
    match goal with
    | H : negb ?b = true, H' : negb (negb ?b) = true |- _ => by destruct b
    end.
Qed.


(** X2. [initTokenManager] throws an [Error] when [url], [username] or
    [password] is missing or empty; it has then logged its banner and done
    nothing else: no request is sent and no cache object is written. *)
Theorem initTokenManager_rejects_incomplete (rc : RawConfig) (s : State) :
  falsy_string (raw_url rc) = true
  \/ falsy_string (raw_username rc) = true
  \/ falsy_string (raw_password rc) = true ->
  exists message,
    initTokenManager host rc s
    = (Throw (Error message),
       set_console
         (fun c => c ++ [(LLog, "=== Token Manager Initialization ===")]) s).
Proof.
  intros H. unfold initTokenManager. run.
  destruct (falsy_string (raw_url rc)); [eauto|].
  destruct (falsy_string (raw_username rc)); simpl; [eauto|].
  destruct (falsy_string (raw_password rc)); simpl; [eauto|].
  by destruct H as [|[|]].
Qed.

(** X3. When the endpoint answers the initial request with a status other
    than 200 and 201 (and a body), [initTokenManager] throws
    "Failed to generate initial token"; the configuration has been written
    to the cache, the token fields have not, and exactly the token request
    was sent. *)
Theorem initTokenManager_generation_fails (rc : RawConfig) (s : State)
    (b : string) :
  falsy_string (raw_url rc) = false ->
  falsy_string (raw_username rc) = false ->
  falsy_string (raw_password rc) = false ->
  let res := (http_request host (length (requests s))
                (token_request host (applied_defaults rc))).1 in
  status res <> 200 -> status res <> 201 ->
  body res = Some b ->
  let s' := (initTokenManager host rc s).2 in
  (initTokenManager host rc s).1
  = Throw (Error "Failed to generate initial token")
  /\ config (cache s') = Some (applied_defaults rc)
  /\ token_fields (cache s') = token_fields (cache s)
  /\ requests s' = requests s ++ [token_request host (applied_defaults rc)].
Proof.
  intros Hu Hn Hp res H200 H201 Hb s'. subst s' res.
  remember (initTokenManager host rc s) as out eqn:Hout. revert Hout.
  unfold initTokenManager. run. rewrite Hu, Hn, Hp. simpl.
  unfold generateToken. run. unfold cache at 1. simpl.
  rewrite lookup_total_insert_eq. simpl. fold (applied_defaults rc). run.
  fold (token_request host (applied_defaults rc)).
  destruct (http_request host _ _) as [res elapsed]. simpl in *.
  rewrite bool_decide_eq_false_2 by (intros [|]; done). simpl.
  rewrite Hb. simpl. intros ->. unfold cache. simpl.
  by rewrite lookup_total_insert_eq.
Qed.

(** X4. [getToken] throws "Token manager not initialized" when neither the
    module's cache nor the cache object of the setup data carries a
    configuration; no cache object changes and no request is sent. *)
Theorem getToken_uninitialized (s : State) (data : option SetupData) :
  config (cache s) = None ->
  (forall d l, data = Some d -> tokenManager d = Some l ->
               config (heap s !!! l) = None) ->
  (getToken host data s).1
  = Throw (Error
      "Token manager not initialized. Call initTokenManager() in setup()")
  /\ heap (getToken host data s).2 = heap s
  /\ requests (getToken host data s).2 = requests s.
Proof.
  intros Hcfg Hdata. unfold getToken. run. rewrite Hcfg.
  destruct data as [[[l|] ts]|]; simpl.
  - unfold cache. simpl. by rewrite (Hdata _ l eq_refl eq_refl).
  - by rewrite Hcfg.
  - by rewrite Hcfg.
Qed.

(** X5. A module instance without a configuration adopts the cache object
    of the setup data: [tokenCache] becomes that object itself, and while
    less than 80% of its lifetime has passed [getToken] returns its token
    without a request. *)
Theorem getToken_adopts_snapshot (s : State) (l : nat) (ts : Z)
    (cfg : Config) (t0 : Z) :
  config (cache s) = None ->
  config (heap s !!! l) = Some cfg ->
  generatedAt (heap s !!! l) = Some t0 ->
  clock s < t0 + 800 * expirySeconds cfg ->
  getToken host (Some {| tokenManager := Some l; timestamp := ts |}) s
  = (Return (token (heap s !!! l)), set_tokenCache l s).
Proof.
  intros Hnone Hcfg Ht0 Hlt. unfold getToken. run. rewrite Hnone. simpl.
  unfold cache. simpl. rewrite Hcfg, Ht0. simpl.
  rewrite times_0_8_seconds.
  destruct (Z.leb_spec (t0 + 800 * expirySeconds cfg) (clock s)); [lia|done].
Qed.

(** Once the module has a configuration, the setup data is not read. *)
Lemma getToken_ignores_snapshot_once_initialized (s : State)
    (data : option SetupData) (cfg : Config) :
  config (cache s) = Some cfg ->
  getToken host data s = getToken host None s.
Proof. intros Hcfg. unfold getToken. run. by rewrite Hcfg. Qed.

(** X6. At or after the refresh threshold, with the refresh lock held,
    [getToken] sleeps 100 ms and returns the cached token, whatever its
    age: no request is sent and the lock stays held. *)
Theorem getToken_while_locked (s : State) (data : option SetupData)
    (cfg : Config) :
  config (cache s) = Some cfg ->
  refreshThreshold s cfg <= clock s ->
  refreshLock s = true ->
  getToken host data s
  = (Return (token (cache s)), set_clock (Z.add 100) s).
Proof.
  intros Hcfg Hge Hlock. unfold getToken. run. rewrite Hcfg. simpl.
  rewrite Hcfg. unfold refreshThreshold in Hge.
  destruct (Z.leb_spec (to_number (generatedAt (cache s))
                        + times_0_8 (expirySeconds cfg * 1000)) (clock s));
    [|lia].
  by rewrite Hlock.
Qed.

(** Every generation with a configuration sends exactly one request, the
    token request of that configuration. *)
Lemma generateToken_request (s : State) (cfg : Config) :
  config (cache s) = Some cfg ->
  requests (generateToken host s).2 = requests s ++ [token_request host cfg].
Proof.
  intros Hcfg. unfold generateToken. run. rewrite Hcfg. run.
  fold (token_request host cfg).
  destruct (http_request host _ _) as [res elapsed]. simpl.
  match goal with |- context [negb ?b] => destruct b end; simpl.
  - destruct (token_at _ res) as [e|tok]; simpl; [done|].
    by destruct (truthy tok).
  - by destruct (body res).
Qed.

(** X7. A refresh that succeeds is followed by reuse: at or after the
    threshold, with the lock clear and a positive lifetime, when the
    endpoint answers 200 or 201 with a truthy token at [tokenPath],
    [getToken] returns the new token, caches it and releases the lock, and
    the next [getToken] returns the same token and changes nothing. *)
Theorem getToken_refresh_then_cached (s : State) (data : option SetupData)
    (cfg : Config) (tok : Value) :
  config (cache s) = Some cfg ->
  refreshThreshold s cfg <= clock s ->
  refreshLock s = false ->
  0 < expirySeconds cfg ->
  let res := (http_request host (length (requests s))
                (token_request host cfg)).1 in
  status res = 200 \/ status res = 201 ->
  token_at (tokenPath cfg) res = inr tok ->
  truthy tok = true ->
  let s' := (getToken host data s).2 in
  (getToken host data s).1 = Return tok
  /\ token (cache s') = tok
  /\ refreshLock s' = false
  /\ getToken host data s' = (Return tok, s').
Proof.
  intros Hcfg Hge Hlock Hpos res Hok Hat Htok s'. subst s'.
  rewrite (getToken_refresh host s data cfg) by done.
  assert (Hc0 : config (cache (refreshing s)) = Some cfg) by done.
  destruct (generateToken_response (refreshing s) cfg Hc0) as [_ Hif].
  specialize (Hif tok). simpl in Hif. fold res in Hif.
  rewrite bool_decide_eq_true_2 in Hif by done.
  specialize (Hif eq_refl Hat Htok).
  destruct (generateToken host (refreshing s)) as [r s1] eqn:Hg.
  simpl in Hif. subst r. rewrite Htok. simpl.
  apply generateToken_run in Hg as (Hgen & Htc & _).
  inversion Hgen as [? ? Hfail|? cfg' ? _ Hcfg' Hheap]; subst.
  { rewrite (Hfail tok eq_refl) in Htok. discriminate. }
  rewrite Hc0 in Hcfg'. injection Hcfg' as <-.
  assert (Hcache : cache (set_refreshLock false s1)
                   = {| token := tok;
                        generatedAt := Some (clock s1);
                        expiresAt := Some (clock s1 + expirySeconds cfg * 1000);
                        config := Some cfg |}).
  { unfold cache. simpl. by rewrite Htc, Hheap, lookup_total_insert_eq. }
  rewrite Hcache. simpl. repeat split.
  rewrite (getToken_still_valid host _ data cfg).
  - by rewrite Hcache.
  - by rewrite Hcache.
  - unfold refreshThreshold. rewrite Hcache. simpl.
    rewrite times_0_8_seconds. lia.
Qed.

(** X8. [forceRefreshToken] sends the token request whatever the age of
    the cached token and leaves the refresh lock as it found it; without a
    configuration it throws a [TypeError] and sends nothing. *)
Theorem forceRefreshToken_requests (s : State) :
  match config (cache s) with
  | Some cfg =>
      requests (forceRefreshToken host s).2
      = requests s ++ [token_request host cfg]
      /\ refreshLock (forceRefreshToken host s).2 = refreshLock s
  | None =>
      (forceRefreshToken host s).1
      = Throw (TypeError "Cannot read property 'url' of null")
      /\ requests (forceRefreshToken host s).2 = requests s
  end.
Proof.
  destruct (config (cache s)) as [cfg|] eqn:Hcfg.
  - unfold forceRefreshToken, bind, log, modify. simpl.
    match goal with |- context [generateToken host ?s1] => set (s0 := s1) end.
    assert (Hc0 : config (cache s0) = Some cfg) by done.
    pose proof (generateToken_request s0 cfg Hc0) as Hreq.
    pose proof (generateToken_spec host s0) as (_ & _ & Hlock & _).
    by destruct (generateToken host s0) as [[] ?].
  - unfold forceRefreshToken, generateToken. run.
    unfold cache in *. simpl. by rewrite Hcfg.
Qed.

End Lifecycle.

(** X9. [isTokenValid] answers true exactly when the cache holds a truthy
    token and [getTokenTTL] is positive. *)
Theorem isTokenValid_iff_ttl (s : State) :
  (isTokenValid s).1 = Return true
  <-> truthy (token (cache s)) = true
      /\ exists ttl, (getTokenTTL s).1 = Return ttl /\ 0 < ttl.
Proof.
  unfold isTokenValid, getTokenTTL, bind, gets, ret, Date_now. simpl.
  destruct (expiresAt (cache s)) as [e|]; simpl.
  - destruct (truthy (token (cache s))); simpl.
    + destruct (Z.eqb_spec e 0) as [->|Hne]; simpl.
      * split; [discriminate|]. intros [_ (ttl & [= <-] & ?)]. lia.
      * split.
        -- intros [= Hlt]. apply Z.ltb_lt in Hlt. split; [done|].
           eexists. split; [done|]. lia.
        -- intros [_ (ttl & [= <-] & Hpos)]. f_equal. apply Z.ltb_lt. lia.
    + split; [discriminate|]. by intros [? _].
  - split; [discriminate|]. intros [_ (ttl & [= <-] & ?)]. lia.
Qed.

(** ** The life cycle on the example endpoints *)


Lemma initTokenManager_rejects_incomplete_witness :
  exists message,
    initTokenManager host_down no_url boot
    = (Throw (Error message),
       set_console
         (fun c => c ++ [(LLog, "=== Token Manager Initialization ===")])
         boot).
Proof.
  apply (initTokenManager_rejects_incomplete host_down no_url boot).
  left. reflexivity.
Defined.

Lemma initTokenManager_generation_fails_witness :
  (initTokenManager host_down credentials boot).1
  = Throw (Error "Failed to generate initial token")
  /\ config (cache (initTokenManager host_down credentials boot).2)
     = Some (applied_defaults credentials)
  /\ token_fields (cache (initTokenManager host_down credentials boot).2)
     = token_fields (cache boot)
  /\ requests (initTokenManager host_down credentials boot).2
     = requests boot ++ [token_request host_down (applied_defaults credentials)].
Proof.
  apply (initTokenManager_generation_fails host_down credentials boot
           "Service Unavailable");
    first [reflexivity | discriminate].
Defined.

Lemma getToken_uninitialized_witness :
  (getToken host_down (Some setup_data) boot).1
  = Throw (Error
      "Token manager not initialized. Call initTokenManager() in setup()")
  /\ heap (getToken host_down (Some setup_data) boot).2 = heap boot
  /\ requests (getToken host_down (Some setup_data) boot).2 = requests boot.
Proof.
  apply (getToken_uninitialized host_down boot (Some setup_data)).
  - reflexivity.
  - intros d l [= <-] [= <-]. reflexivity.
Defined.

Lemma getToken_adopts_snapshot_witness :
  getToken (host_then unavailable) (Some setup_data) (worker unavailable)
  = (Return (token (heap (worker unavailable) !!! 0%nat)),
     set_tokenCache 0 (worker unavailable)).
Proof.
  apply (getToken_adopts_snapshot (host_then unavailable) (worker unavailable)
           0%nat 1700000000040 (applied_defaults credentials) 1700000000040);
    vm_compute; reflexivity.
Defined.

Lemma getToken_while_locked_witness :
  getToken (host_then unavailable) None (locked unavailable)
  = (Return (token (cache (locked unavailable))),
     set_clock (Z.add 100) (locked unavailable)).
Proof.
  apply (getToken_while_locked (host_then unavailable) (locked unavailable)
           None (applied_defaults credentials)).
  - vm_compute; reflexivity.
  - vm_compute. discriminate.
  - reflexivity.
Defined.

Lemma getToken_refresh_then_cached_witness :
  (getToken (host_then token_response) None (due token_response)).1
  = Return (VStr "tok-1")
  /\ token (cache (getToken (host_then token_response) None
                     (due token_response)).2) = VStr "tok-1"
  /\ refreshLock (getToken (host_then token_response) None
                    (due token_response)).2 = false
  /\ getToken (host_then token_response) None
       (getToken (host_then token_response) None (due token_response)).2
     = (Return (VStr "tok-1"),
        (getToken (host_then token_response) None (due token_response)).2).
Proof.
  apply (getToken_refresh_then_cached (host_then token_response)
           (due token_response) None (applied_defaults credentials)
           (VStr "tok-1")).
  - vm_compute; reflexivity.
  - vm_compute. discriminate.
  - reflexivity.
  - reflexivity.
  - left. vm_compute; reflexivity.
  - vm_compute; reflexivity.
  - reflexivity.
Defined.

Lemma initTokenManager_then_getToken_witness :
  truthy (token (cache (ready unavailable))) = true
  /\ generatedAt (cache (ready unavailable))
     = Some (clock (ready unavailable))
  /\ getToken (host_then unavailable) None (ready unavailable)
     = (Return (token (cache (ready unavailable))), ready unavailable).
Proof.
  apply (initTokenManager_then_getToken (host_then unavailable) credentials
           boot (ready unavailable) setup_data None).
  - vm_compute; reflexivity.
  - reflexivity.
Defined.

End TokenManagerFacts.

(* ===================================================================== *)
(** * Properties of the unique-data allocator *)
(* ===================================================================== *)

Module CsvManagerFacts.
Import CsvManager CsvManagerSpec.
Local Open Scope Z_scope.

Example getUniqueData_three_rows :
  map (fun iteration =>
         (getUniqueData (Some three_rows) 1 iteration default_options []).1)
      [0; 1; 2; 3]
  = [Return (Row "alice"); Return (Row "bob"); Return (Row "carol");
     Abort "CSV data exhausted at VU 1, Iteration 3"].
Proof. reflexivity. Qed.

Example getUniqueData_three_rows_no_abort :
  getUniqueData (Some three_rows) 1 3
    {| abortOnExhaustion := false; logExhaustion := true |} []
  = (Return Null,
     [(LError,
       "[DATA] Data exhausted! VU 1, Iter 3, Index 3 exceeds 3 records")]).
Proof. reflexivity. Qed.

(** Below the data length, and from index 0 on, the call returns the record
    at [unique_index] and logs nothing. *)
Lemma getUniqueData_in_range {A} (rows : list A) vuId iteration options c r :
  rows !! Z.to_nat (unique_index vuId iteration) = Some r ->
  0 <= unique_index vuId iteration ->
  getUniqueData (Some rows) vuId iteration options c = (Return (Row r), c).
Proof.
  intros Hr Hpos.
  assert (Hlt : (Z.to_nat (unique_index vuId iteration) < length rows)%nat)
    by (eapply lookup_lt_Some; eassumption).
  destruct rows as [|a rows]; [simpl in Hlt; lia|].
  unfold getUniqueData.
  destruct (Z.leb_spec (Z.of_nat (length (a :: rows)))
                       (unique_index vuId iteration)) as [Hge|_]; [lia|].
  unfold at_index, ret.
  destruct (Z.ltb_spec (unique_index vuId iteration) 0); [lia|].
  by rewrite Hr.
Qed.

(** Whatever the arguments, a record that is returned is the record of the
    array at [unique_index], which lies within the array. *)
Lemma getUniqueData_row_in_bounds {A} (dataArray : option (list A))
    vuId iteration options c r :
  (getUniqueData dataArray vuId iteration options c).1 = Return (Row r) ->
  exists rows,
    dataArray = Some rows
    /\ 0 <= unique_index vuId iteration < Z.of_nat (length rows)
    /\ rows !! Z.to_nat (unique_index vuId iteration) = Some r.
Proof.
  destruct dataArray as [[|a rows]|]; unfold getUniqueData;
    try (destruct options as [[] []]; discriminate).
  destruct (Z.leb_spec (Z.of_nat (length (a :: rows)))
                       (unique_index vuId iteration)) as [Hge|Hlt].
  - destruct options as [[] []]; discriminate.
  - unfold ret, at_index; simpl fst.
    destruct (Z.ltb_spec (unique_index vuId iteration) 0) as [|Hpos];
      [discriminate|].
    destruct (_ !! _) as [r'|] eqn:Hr; [|discriminate].
    intros [= ->]. exists (a :: rows). auto.
Qed.

(** C3. For worker ids [w1 ≠ w2], both positive, and sequence numbers
    [s1], [s2] in [0, 1000), the allocation indices
    [(w - 1) * 1000 + s] that [getUniqueData] computes are distinct. *)
Theorem unique_index_distinct_across_workers (w1 w2 s1 s2 : Z) :
  0 < w1 -> 0 < w2 -> w1 <> w2 ->
  0 <= s1 < 1000 -> 0 <= s2 < 1000 ->
  unique_index w1 s1 <> unique_index w2 s2.
Proof. unfold unique_index. lia. Qed.

Lemma unique_index_distinct_across_workers_witness :
  unique_index 1 999 <> unique_index 2 0.
Proof.
  apply (unique_index_distinct_across_workers 1 2 999 0); lia.
Defined.

(** X12. Two different workers never receive the same position of the
    array while both stay below 1000 iterations: on data without
    duplicates the records they are handed differ. *)
Lemma getUniqueData_distinct_rows {A} (rows : list A) w1 w2 s1 s2 o1 o2 c1 c2
    r1 r2 :
  NoDup rows ->
  0 < w1 -> 0 < w2 -> w1 <> w2 ->
  0 <= s1 < 1000 -> 0 <= s2 < 1000 ->
  (getUniqueData (Some rows) w1 s1 o1 c1).1 = Return (Row r1) ->
  (getUniqueData (Some rows) w2 s2 o2 c2).1 = Return (Row r2) ->
  r1 <> r2.
Proof.
  intros Hnd ? ? Hw ? ? H1 H2 ->.
  apply getUniqueData_row_in_bounds in H1 as (? & [= <-] & ? & Hr1).
  apply getUniqueData_row_in_bounds in H2 as (? & [= <-] & ? & Hr2).
  pose proof (NoDup_lookup _ _ _ _ Hnd Hr1 Hr2) as Heq.
  unfold unique_index in *. lia.
Qed.

(** C4. When the allocation index is at or beyond the length of the data
    array, [getUniqueData] signals exhaustion: it aborts the run if
    [abortOnExhaustion] is set (the default) and returns [null] otherwise;
    in no case does it return a record. *)
Theorem getUniqueData_exhausted {A} (rows : list A) (vuId iteration : Z)
    (options : Options) (c : Console) :
  Z.of_nat (length rows) <= unique_index vuId iteration ->
  (exists reason,
     (getUniqueData (Some rows) vuId iteration options c).1
     = if abortOnExhaustion options then Abort reason else Return Null)
  /\ (forall r,
        (getUniqueData (Some rows) vuId iteration options c).1
        <> Return (Row r))
  /\ (abortOnExhaustion default_options = true).
Proof.
  intros Hge.
  assert (Hres : exists reason,
     (getUniqueData (Some rows) vuId iteration options c).1
     = if abortOnExhaustion options then Abort reason else Return Null).
  { destruct rows as [|a rows]; unfold getUniqueData.
    - destruct options as [[] []]; cbv [log bind modify abort ret fst];
        first [by exists "" | by eexists].
    - destruct (Z.leb_spec (Z.of_nat (length (a :: rows)))
                           (unique_index vuId iteration)); [|lia].
      destruct options as [[] []]; cbv [log bind modify abort ret fst];
        first [by exists "" | by eexists]. }
  split; [exact Hres|]. split; [|reflexivity].
  intros r Hr. destruct Hres as [reason Hres]. rewrite Hres in Hr.
  destruct (abortOnExhaustion options); discriminate.
Qed.

Lemma getUniqueData_exhausted_witness :
  (exists reason,
     (getUniqueData (Some three_rows) 1 3 default_options []).1
     = if abortOnExhaustion default_options
       then Abort reason else Return Null)
  /\ (forall r,
        (getUniqueData (Some three_rows) 1 3 default_options []).1
        <> Return (Row r))
  /\ (abortOnExhaustion default_options = true).
Proof.
  apply (getUniqueData_exhausted three_rows 1 3 default_options []).
  unfold unique_index, three_rows. simpl. lia.
Defined.


(** ** Capacity *)

(** X11. A data array of at least [(totalVUs - 1) * 1000 + iterations]
    records serves every worker [1..totalVUs] on every iteration
    [0..iterations-1]: the call returns the record at the allocation index
    and logs nothing. *)
Theorem getUniqueData_capacity {A} (rows : list A)
    (totalVUs iterations vuId iteration : Z) (options : Options)
    (c : Console) :
  1 <= vuId <= totalVUs ->
  0 <= iteration < iterations ->
  (totalVUs - 1) * 1000 + iterations <= Z.of_nat (length rows) ->
  exists r,
    rows !! Z.to_nat (unique_index vuId iteration) = Some r
    /\ getUniqueData (Some rows) vuId iteration options c = (Return (Row r), c).
Proof.
  intros Hvu Hit Hcap.
  assert (Hidx : 0 <= unique_index vuId iteration < Z.of_nat (length rows))
    by (unfold unique_index; nia).
  destruct (lookup_lt_is_Some_2 rows (Z.to_nat (unique_index vuId iteration)))
    as [r Hr]; [lia|].
  exists r. split; [done|].
  destruct rows as [|a rows]; [simpl in Hidx; lia|].
  unfold getUniqueData.
  destruct (Z.leb_spec (Z.of_nat (length (a :: rows)))
                       (unique_index vuId iteration)); [lia|].
  unfold at_index, ret.
  destruct (Z.ltb_spec (unique_index vuId iteration) 0); [lia|].
  by rewrite Hr.
Qed.

Lemma getUniqueData_capacity_witness :
  exists r,
    three_rows !! Z.to_nat (unique_index 1 2) = Some r
    /\ getUniqueData (Some three_rows) 1 2 default_options []
       = (Return (Row r), []).
Proof.
  apply (getUniqueData_capacity three_rows 1 3 1 2 default_options []);
    simpl; lia.
Defined.

Lemma getUniqueData_distinct_rows_witness :
  (getUniqueData (Some many_rows) 1 0 default_options []).1
  = Return (Row 0%nat)
  /\ (getUniqueData (Some many_rows) 2 0 default_options []).1
     = Return (Row 1000%nat)
  /\ 0%nat <> 1000%nat.
Proof.
  assert (H1 : (getUniqueData (Some many_rows) 1 0 default_options []).1
               = Return (Row 0%nat)) by (vm_compute; reflexivity).
  assert (H2 : (getUniqueData (Some many_rows) 2 0 default_options []).1
               = Return (Row 1000%nat)) by (vm_compute; reflexivity).
  split; [exact H1|]. split; [exact H2|].
  apply (getUniqueData_distinct_rows many_rows 1 2 0 0 default_options
           default_options [] [] 0%nat 1000%nat);
    first [apply NoDup_seq | lia | exact H1 | exact H2].
Defined.

(** X13. [isDataSufficient] compares the record count with
    [totalVUs * iterations], while [getUniqueData] spaces the workers 1000
    records apart: with at least two workers, data that
    [isDataSufficient] accepts but that has no more than
    [(totalVUs - 1) * 1000] records is exhausted at the first iteration of
    the last worker, where [getUniqueData] under its default options
    aborts the run. *)
Theorem isDataSufficient_does_not_prevent_exhaustion {A} (rows : list A)
    (totalVUs iterations : Z) (c c' : Console) :
  2 <= totalVUs ->
  0 <= iterations ->
  totalVUs * iterations <= Z.of_nat (length rows) ->
  Z.of_nat (length rows) <= (totalVUs - 1) * 1000 ->
  (isDataSufficient rows totalVUs iterations c).1 = Return true
  /\ exists reason,
       (getUniqueData (Some rows) totalVUs 0 default_options c').1
       = Abort reason.
Proof.
  intros Hvu Hit Hsuff Hsmall. split.
  - unfold isDataSufficient, bind, log, modify, ret. simpl.
    destruct (Z.leb_spec (totalVUs * iterations) (Z.of_nat (length rows)));
      [done|lia].
  - destruct rows as [|a rows]; unfold getUniqueData.
    + cbv [log bind modify abort ret fst default_options logExhaustion
             abortOnExhaustion]. eauto.
    + destruct (Z.leb_spec (Z.of_nat (length (a :: rows)))
                           (unique_index totalVUs 0));
        [|unfold unique_index in *; lia].
      cbv [log bind modify abort ret fst default_options logExhaustion
             abortOnExhaustion]. eauto.
Qed.

Lemma isDataSufficient_does_not_prevent_exhaustion_witness :
  (isDataSufficient three_rows 2 1 []).1 = Return true
  /\ exists reason,
       (getUniqueData (Some three_rows) 2 0 default_options []).1
       = Abort reason.
Proof.
  apply (isDataSufficient_does_not_prevent_exhaustion three_rows 2 1 [] []);
    simpl; lia.
Defined.

(** X14. With both exhaustion options off and a non-empty array,
    [getUniqueData] is [getDataByIndex] at the allocation index: the record
    there, [null] at or beyond the length, and nothing logged. *)
Theorem getUniqueData_is_getDataByIndex {A} (rows : list A)
    (vuId iteration : Z) (c : Console) :
  rows <> [] ->
  getUniqueData (Some rows) vuId iteration
    {| abortOnExhaustion := false; logExhaustion := false |} c
  = (Return (getDataByIndex (Some rows) (unique_index vuId iteration)), c).
Proof.
  intros Hne. destruct rows as [|a rows]; [done|].
  unfold getUniqueData, getDataByIndex.
  by destruct (_ <=? _).
Qed.

Lemma getUniqueData_is_getDataByIndex_witness :
  getUniqueData (Some three_rows) 1 5
    {| abortOnExhaustion := false; logExhaustion := false |} []
  = (Return (getDataByIndex (Some three_rows) (unique_index 1 5)), []).
Proof.
  apply (getUniqueData_is_getDataByIndex three_rows 1 5 []). discriminate.
Defined.

(** X15. For a positive number of workers, [calculateDataUsage] reports
    the quotient and remainder of the record count by the worker count,
    and its [maxIterationsPerVU] is the largest iteration count that
    [isDataSufficient] accepts for that data and that many workers. *)
Theorem calculateDataUsage_is_sufficient_and_maximal {A} (rows : list A)
    (vus : Z) (c : Console) :
  0 < vus ->
  exists m r,
    maxIterationsPerVU (calculateDataUsage (Z.of_nat (length rows)) vus)
    = Some m
    /\ remainder (calculateDataUsage (Z.of_nat (length rows)) vus) = Some r
    /\ vus * m + r = Z.of_nat (length rows) /\ 0 <= r < vus
    /\ (isDataSufficient rows vus m c).1 = Return true
    /\ (isDataSufficient rows vus (m + 1) c).1 = Return false.
Proof.
  intros Hvus. unfold calculateDataUsage. simpl.
  destruct (Z.eqb_spec vus 0); [lia|].
  set (total := Z.of_nat (length rows)).
  assert (Hn : 0 <= total) by lia.
  exists (total / vus), (Z.rem total vus).
  rewrite Z.rem_mod_nonneg by lia.
  pose proof (Z.div_mod total vus ltac:(lia)) as Hdm.
  pose proof (Z.mod_pos_bound total vus Hvus) as Hm.
  repeat split; try lia.
  - unfold isDataSufficient, bind, log, modify, ret. simpl. fold total.
    destruct (Z.leb_spec (vus * (total / vus)) total); [done|lia].
  - unfold isDataSufficient, bind, log, modify, ret. simpl. fold total.
    destruct (Z.leb_spec (vus * (total / vus + 1)) total); [lia|done].
Qed.

Lemma calculateDataUsage_is_sufficient_and_maximal_witness :
  exists m r,
    maxIterationsPerVU (calculateDataUsage (Z.of_nat (length three_rows)) 2)
    = Some m
    /\ remainder (calculateDataUsage (Z.of_nat (length three_rows)) 2)
       = Some r
    /\ 2 * m + r = Z.of_nat (length three_rows) /\ 0 <= r < 2
    /\ (isDataSufficient three_rows 2 m []).1 = Return true
    /\ (isDataSufficient three_rows 2 (m + 1) []).1 = Return false.
Proof.
  apply (calculateDataUsage_is_sufficient_and_maximal three_rows 2 []). lia.
Defined.

(** X16. [validateDataset] inspects the first record only.  For required
    fields that name no member of [Object.prototype] (which every record
    has), a non-empty dataset is valid exactly when every required field
    is a key of its first record, whatever the other records hold;
    otherwise the result lists the missing fields in the order they were
    required. *)
Theorem validateDataset_checks_first_record
    (firstRecord : list (string * Value))
    (rest : list (list (string * Value))) (requiredFields : list string) :
  Forall (fun f => inherited f = false) requiredFields ->
  let missing :=
    List.filter (fun f => negb (bool_decide (is_Some (obj_get f firstRecord))))
                requiredFields in
  validateDataset (Some (firstRecord :: rest)) requiredFields
  = if bool_decide (Forall (fun f => is_Some (obj_get f firstRecord))
                           requiredFields)
    then Valid (S (length rest)) (map fst (entries firstRecord))
    else Invalid ("Missing required fields: " +:+ join ", " missing)
                 (Some missing).
Proof.
  intros Hord missing. subst missing. unfold validateDataset.
  rewrite (filter_ext_in
             (fun field => negb (in_record field firstRecord))
             (fun f => negb (bool_decide (is_Some (obj_get f firstRecord))))).
  2:{ intros f Hin. rewrite Forall_forall in Hord.
      unfold in_record. rewrite (Hord f) by (by apply list_elem_of_In).
      by rewrite orb_false_r. }
  destruct (List.filter _ requiredFields) as [|f fs] eqn:Hf.
  - rewrite bool_decide_eq_true_2; [done|].
    apply Forall_forall. intros f Hin.
    destruct (decide (is_Some (obj_get f firstRecord))) as [|Hno]; [done|].
    assert (In f (List.filter
              (fun f => negb (bool_decide (is_Some (obj_get f firstRecord))))
              requiredFields)) as Hin'.
    { apply filter_In. split; [by apply list_elem_of_In|].
      by rewrite bool_decide_eq_false_2. }
    rewrite Hf in Hin'. destruct Hin'.
  - rewrite bool_decide_eq_false_2; [done|].
    intros Hall. rewrite Forall_forall in Hall.
    assert (In f (List.filter
              (fun f => negb (bool_decide (is_Some (obj_get f firstRecord))))
              requiredFields)) as Hin' by (rewrite Hf; by left).
    apply filter_In in Hin' as [Hin Hneg].
    apply list_elem_of_In in Hin. specialize (Hall f Hin).
    by rewrite bool_decide_eq_true_2 in Hneg.
Qed.

Lemma validateDataset_checks_first_record_witness :
  validateDataset (Some [user_record; []]) ["email"; "name"]
  = if bool_decide (Forall (fun f => is_Some (obj_get f user_record))
                           ["email"; "name"])
    then Valid 2 (map fst (entries user_record))
    else Invalid
           ("Missing required fields: "
            +:+ join ", "
                  (List.filter
                     (fun f => negb (bool_decide
                                       (is_Some (obj_get f user_record))))
                     ["email"; "name"]))
           (Some (List.filter
                    (fun f => negb (bool_decide
                                      (is_Some (obj_get f user_record))))
                    ["email"; "name"])).
Proof.
  apply (validateDataset_checks_first_record user_record [[]]
           ["email"; "name"]).
  repeat constructor.
Defined.

(** A required field that a record inherits is never missing. *)
Example validateDataset_inherited_field :
  validateDataset (Some [user_record]) ["constructor"] = Valid 1 ["email"].
Proof. reflexivity. Qed.

End CsvManagerFacts.

(* ===================================================================== *)
(** * Properties of the correlation store *)
(* ===================================================================== *)

Module CorrelationManagerFacts.
Import CorrelationManager CorrelationManagerSpec.
Local Open Scope Z_scope.

(** ** Path resolution *)

Example arrayMatch_items : arrayMatch "items[0]" = Some ("items", 0%N).
Proof. reflexivity. Qed.

Example arrayMatch_plain : arrayMatch "items" = None.
Proof. reflexivity. Qed.

Example extractJsonValue_nested :
  (extractJsonValue (Some (answer 200 nested_text nested)) "a.b[0].c" VNull fresh).1
  = Return (VNum 42).
Proof. reflexivity. Qed.

Example extractJsonValue_out_of_bounds :
  (extractJsonValue (Some (answer 200 nested_text nested)) "a.b[5].c" VNull fresh).1
  = Return VNull.
Proof. reflexivity. Qed.

(** [extractJsonValue] always returns, and touches nothing but the
    console. *)
Lemma extractJsonValue_returns response path d s :
  exists v msgs,
    extractJsonValue response path d s
    = (Return v, set_console (fun c => c ++ msgs) s).
Proof.
  assert (Hid : s = set_console (fun c => c ++ []) s).
  { destruct s; unfold set_console; simpl. by rewrite app_nil_r. }
  unfold extractJsonValue.
  destruct response as [r|]; [|exists d, []; by rewrite <- Hid].
  destruct (json r) as [jsonData|message].
  - destruct (String.eqb path "");
      [exists jsonData, []; by rewrite <- Hid|].
    destruct (resolve _ _) as [e|[[]|]];
      try (eexists _, []; rewrite <- Hid; reflexivity).
    eexists _, [_]. reflexivity.
  - eexists _, [_]. reflexivity.
Qed.

Lemma extractJsonValue_frame response path d s :
  correlationStore (extractJsonValue response path d s).2 = correlationStore s
  /\ clock (extractJsonValue response path d s).2 = clock s.
Proof.
  destruct (extractJsonValue_returns response path d s) as (v & msgs & ->).
  by destruct s.
Qed.

(** ** Extraction *)

(** C1, as the code has it.  Let the response have a text body and let the
    path resolve to [null] or [undefined].  If [required] is set (the
    default), [extractAndStore] logs three errors (the failure, the
    status, the first 200 characters of the body), returns [null] and
    leaves the store as it was: nothing is written under the key.  If
    [required] is off, it stores the resolved value under the key and
    returns it, logging a warning and the store message when
    [logExtraction] is on. *)
Theorem extractAndStore_unresolved (r : Response) (b : string)
    (jsonPath correlationKey : string) (options : Options) (s : State)
    (v : Value) :
  body r = Some b ->
  (extractJsonValue (Some r) jsonPath (default_null (defaultValue options)) s).1
  = Return v ->
  is_nullish v = true ->
  let s1 :=
    (extractJsonValue (Some r) jsonPath (default_null (defaultValue options))
                      s).2 in
  correlationStore s1 = correlationStore s
  /\ extractAndStore (Some r) jsonPath correlationKey options s
     = if required options then
         (Return VNull,
          {| correlationStore := correlationStore s1;
             clock := clock s1;
             console := console s1 ++
               [(LError, failed_to_extract correlationKey jsonPath);
                (LError, "[CORRELATION] Response status: "
                         +:+ pretty (status r));
                (LError, "[CORRELATION] Response body: "
                         +:+ String.substring 0 200 b)] |})
       else
         (Return v,
          {| correlationStore :=
               <[correlationKey :=
                   {| value := v; extractedAt := clock s1;
                      source := jsonPath |}]> (correlationStore s1);
             clock := clock s1;
             console := console s1 ++
               (if logExtraction options
                then [(LWarn, failed_to_extract correlationKey jsonPath
                              +:+ " (optional)");
                      (LLog, "[CORRELATION] ✓ Stored '" +:+ correlationKey
                             +:+ "' = " +:+ to_string v)]
                else []) |}).
Proof.
  intros Hb Hv Hnull s1.
  split; [apply extractJsonValue_frame|].
  unfold extractAndStore, bind. subst s1.
  destruct (extractJsonValue _ _ _ s) as [res s1]. simpl in Hv. subst res.
  rewrite Hnull. simpl.
  destruct (required options).
  - unfold bind, log, modify, ret, set_console. simpl. rewrite Hb. simpl.
    by rewrite <- !app_assoc.
  - destruct (logExtraction options);
      unfold bind, log, modify, ret, gets, Date_now, set_console, set_store;
      simpl.
    + by rewrite <- !app_assoc.
    + by rewrite app_nil_r.
Qed.

Lemma extractAndStore_unresolved_witness :
  correlationStore
    (extractJsonValue (Some no_id) "id" VNull fresh).2 = correlationStore fresh
  /\ extractAndStore (Some no_id) "id" "userId" default_options fresh
     = (Return VNull,
        {| correlationStore := ∅;
           clock := 1700000000000;
           console :=
             [(LError, failed_to_extract "userId" "id");
              (LError, "[CORRELATION] Response status: 200");
              (LError, "[CORRELATION] Response body: {}")] |}).
Proof.
  apply (extractAndStore_unresolved no_id "{}" "id" "userId" default_options
           fresh VNull); reflexivity.
Defined.

(** C1, refuted as stated: with [required] at its default, an unresolved
    path leaves no entry under the key, so no null value is stored. *)
Lemma extractAndStore_required_stores_nothing :
  ~ (exists e,
       correlationStore
         (extractAndStore (Some no_id) "id" "userId" default_options fresh).2
       !! "userId" = Some e).
Proof. intros [e He]. vm_compute in He. discriminate. Qed.

(** With [required] off, the null value is stored. *)
Example extractAndStore_optional_stores_null :
  correlationStore
    (extractAndStore (Some no_id) "id" "userId"
       {| required := false; defaultValue := VNull; logExtraction := true |}
       fresh).2
  !! "userId"
  = Some {| value := VNull; extractedAt := 1700000000000; source := "id" |}.
Proof. reflexivity. Qed.

(** A response without a text body ([null] for a failed request) makes
    the error report itself fail. *)
Example extractAndStore_null_body :
  (extractAndStore
     (Some {| status := 0; body := None; json := JsonError "unexpected end";
              timings_duration := 0 |})
     "id" "userId" default_options fresh).1
  = Throw (TypeError "Cannot read property 'substring' of null").
Proof. reflexivity. Qed.

(** ** Lookup after clear *)

(** After [clearCorrelations()] a key that names no member of
    [Object.prototype] reads the fallback, whatever was stored under it. *)
Lemma store_clear_get (s : State) (key : string) (v fallback : Value) :
  inherited key = false ->
  ((storeCorrelation key v ;;; clearCorrelations ;;;
    getCorrelatedValue key fallback) s).1
  = Return (default_null fallback).
Proof.
  intros Hkey.
  unfold storeCorrelation, clearCorrelations, getCorrelatedValue, Date_now,
    bind, modify, gets, ret, read_store; simpl.
  by rewrite lookup_empty, Hkey.
Qed.

(** C8, evaluated on the code.  [clearCorrelations()] makes the store a
    new plain object, and a plain object inherits the members of
    [Object.prototype].  For the key [constructor], whatever was stored
    under it before, [getCorrelatedValue] then finds the inherited
    function, takes it for an entry and returns its [value]: [undefined],
    not the fallback.  For every key that names no such member the
    fallback is returned (an omitted fallback being [null]), and
    [hasCorrelation] is false for every key. *)
Theorem clearCorrelations_forgets (s : State) (v fallback : Value) :
  (storeCorrelation "constructor" v ;;; clearCorrelations ;;;
   getCorrelatedValue "constructor" fallback) s
  = (Return VUndefined,
     (clearCorrelations (storeCorrelation "constructor" v s).2).2)
  /\ (forall key,
        inherited key = false ->
        (clearCorrelations ;;; getCorrelatedValue key fallback) s
        = (Return (default_null fallback), (clearCorrelations s).2))
  /\ (forall key,
        (clearCorrelations ;;; hasCorrelation key) s
        = (Return false, (clearCorrelations s).2)).
Proof.
  unfold storeCorrelation, clearCorrelations, getCorrelatedValue,
    hasCorrelation, Date_now, bind, modify, gets, ret, read_store; simpl.
  split; [done|]. split; intros key.
  - intros Hkey. by rewrite lookup_empty, Hkey.
  - rewrite lookup_empty. by destruct (inherited key).
Qed.

(** ** URL building *)

Lemma getCorrelatedValue_run key d s :
  getCorrelatedValue key d s = (Return (found key d s), s).
Proof.
  unfold getCorrelatedValue, found, bind, gets, ret; simpl.
  by destruct (read_store key s).
Qed.

Lemma found_own key d s stored :
  correlationStore s !! key = Some stored -> found key d s = value stored.
Proof. intros H. unfold found, read_store. by rewrite H. Qed.

(** The loop of [buildCorrelatedUrl] gives up exactly on the keys for which
    [hasCorrelation] is false. *)
Lemma found_nullish key s :
  is_nullish (found key VUndefined s) = negb (present s key).
Proof.
  unfold found, present, read_store.
  destruct (correlationStore s !! key) as [stored|].
  - by rewrite negb_involutive.
  - by destruct (inherited key).
Qed.

(** As soon as one key of the mapping has no non-null value in the store,
    the loop gives up with [null], whatever it substituted before. *)
Lemma substitute_missing (mapping : list (string * string)) url s :
  Exists (fun pk => present s pk.2 = false) mapping ->
  (substitute mapping url s).1 = Return None.
Proof.
  revert url. induction mapping as [|[placeholder key] mapping IH];
    intros url Hex; [by apply Exists_nil in Hex|].
  simpl. unfold bind at 1. rewrite getCorrelatedValue_run, found_nullish.
  apply Exists_cons in Hex as [Hhead|Htail]; simpl in *.
  - by rewrite Hhead.
  - destruct (present s key); simpl; [by apply IH|done].
Qed.

(** With a mapping given, a missing key makes [buildCorrelatedUrl] return
    [null]. *)
Lemma buildCorrelatedUrl_missing_key urlTemplate mapping s :
  Exists (fun pk => present s pk.2 = false) (entries mapping) ->
  (buildCorrelatedUrl urlTemplate (Some mapping) s).1 = Return None.
Proof. intros Hex. unfold buildCorrelatedUrl. by apply substitute_missing. Qed.

Example match_placeholders_two :
  match_placeholders "/x/{id}/y/{sub}" = ["{id}"; "{sub}"].
Proof. reflexivity. Qed.

Example match_placeholders_empty_braces :
  match_placeholders "/x/{}/y/{sub" = [].
Proof. reflexivity. Qed.

Example buildCorrelatedUrl_both :
  buildCorrelatedUrl "/x/{id}/y/{sub}" None with_id_sub
  = (Return (Some "/x/7/y/9"), with_id_sub).
Proof. vm_compute. reflexivity. Qed.

Example buildCorrelatedUrl_missing :
  (buildCorrelatedUrl "/x/{id}/y/{sub}" None with_id).1 = Return None
  /\ console (buildCorrelatedUrl "/x/{id}/y/{sub}" None with_id).2
     = [(LError, "[CORRELATION] Cannot build URL: missing correlation 'sub'"
                 +:+ " for placeholder '{sub}'")].
Proof. split; vm_compute; reflexivity. Qed.

(** C5, evaluated on the code.  A template that names a placeholder twice
    comes back with its second occurrence unsubstituted, although the
    value is stored: the mapping holds each key once and [replace] with a
    string pattern rewrites the first occurrence only. *)
Theorem buildCorrelatedUrl_repeated_placeholder :
  buildCorrelatedUrl "/x/{id}/y/{id}" None with_id
  = (Return (Some "/x/7/y/{id}"), with_id).
Proof. vm_compute. reflexivity. Qed.


(** ** Reading back what was stored *)

Import JsFacts.

Ltac run :=
  unfold bind, ret, throw, gets, modify, log, Date_now, set_store,
    set_console;
  simpl.

(** X17. A value that [extractAndStore] returns, if it is neither [null]
    nor [undefined], is the value [getCorrelatedValue] then returns for the
    same key, whatever the fallback, and [hasCorrelation] answers true. *)
Theorem extractAndStore_then_get (response : option Response)
    (jsonPath correlationKey : string) (options : Options) (s : State)
    (v fallback : Value) :
  (extractAndStore response jsonPath correlationKey options s).1 = Return v ->
  is_nullish v = false ->
  let s' := (extractAndStore response jsonPath correlationKey options s).2 in
  getCorrelatedValue correlationKey fallback s' = (Return v, s')
  /\ hasCorrelation correlationKey s' = (Return true, s').
Proof.
  intros Hv Hnn s'. subst s'.
  remember (extractAndStore response jsonPath correlationKey options s)
    as out eqn:Hout.
  revert Hout Hv. unfold extractAndStore, bind at 1.
  destruct (extractJsonValue_returns response jsonPath
              (default_null (defaultValue options)) s) as (v0 & msgs & ->).
  destruct (is_nullish v0) eqn:Hv0.
  - destruct (required options).
    + destruct response as [r|]; run; [|by intros ->].
      destruct (body r); run; [|by intros ->].
      intros -> [= <-]. discriminate.
    + destruct (logExtraction options); run; intros -> [= <-]; congruence.
  - destruct (logExtraction options); run; intros -> [= <-];
      unfold getCorrelatedValue, hasCorrelation, read_store; run;
      rewrite lookup_insert_eq; simpl; by rewrite Hnn.
Qed.

Lemma extractAndStore_then_get_witness :
  getCorrelatedValue "cKey" VNull
    (extractAndStore (Some (answer 200 nested_text nested)) "a.b[0].c" "cKey"
       default_options fresh).2
  = (Return (VNum 42),
     (extractAndStore (Some (answer 200 nested_text nested)) "a.b[0].c" "cKey"
        default_options fresh).2)
  /\ hasCorrelation "cKey"
       (extractAndStore (Some (answer 200 nested_text nested)) "a.b[0].c"
          "cKey" default_options fresh).2
     = (Return true,
        (extractAndStore (Some (answer 200 nested_text nested)) "a.b[0].c"
           "cKey" default_options fresh).2).
Proof.
  apply (extractAndStore_then_get (Some (answer 200 nested_text nested))
           "a.b[0].c" "cKey" default_options fresh (VNum 42) VNull);
    vm_compute; reflexivity.
Defined.

(** X18. [storeCorrelation] followed by [getCorrelatedValue] on the same
    key returns the stored value, also when it is [null] or [undefined];
    [hasCorrelation] answers true unless the value is [null] or
    [undefined].  Unless the key is [__proto__], under which the write
    replaces the prototype of the store, what both answer for any other
    key is unchanged. *)
Theorem storeCorrelation_then_get (key : string) (v fallback : Value)
    (s : State) :
  let s' := (storeCorrelation key v s).2 in
  getCorrelatedValue key fallback s' = (Return v, s')
  /\ hasCorrelation key s' = (Return (negb (is_nullish v)), s')
  /\ (key <> "__proto__" ->
      forall other, other <> key ->
        (getCorrelatedValue other fallback s').1
        = (getCorrelatedValue other fallback s).1
        /\ (hasCorrelation other s').1 = (hasCorrelation other s).1).
Proof.
  unfold storeCorrelation, getCorrelatedValue, hasCorrelation, read_store.
  run. rewrite lookup_insert_eq. repeat split; try done.
  all: rewrite lookup_insert_ne by done;
    destruct (correlationStore s !! other); [done|];
    by destruct (inherited other).
Qed.

(** X19. On a store whose prototype no write under [__proto__] has
    replaced, [clearCorrelation] forgets one key: if the key names no
    member of [Object.prototype], [getCorrelatedValue] returns the fallback
    for it afterwards; [hasCorrelation] answers false for it; and what both
    answer for any other key is unchanged. *)
Theorem clearCorrelation_forgets_one (key : string) (fallback : Value)
    (s : State) :
  correlationStore s !! "__proto__" = None ->
  inherited key = false ->
  let s' := (clearCorrelation key s).2 in
  getCorrelatedValue key fallback s' = (Return (default_null fallback), s')
  /\ hasCorrelation key s' = (Return false, s')
  /\ forall other, other <> key ->
       (getCorrelatedValue other fallback s').1
       = (getCorrelatedValue other fallback s).1
       /\ (hasCorrelation other s').1 = (hasCorrelation other s).1.
Proof.
  intros _ Hkey.
  unfold clearCorrelation, getCorrelatedValue, hasCorrelation, read_store.
  run. rewrite lookup_delete_eq, Hkey. repeat split; try done.
  all: rewrite lookup_delete_ne by done;
    destruct (correlationStore s !! other); [done|];
    by destruct (inherited other).
Qed.

Lemma clearCorrelation_forgets_one_witness :
  getCorrelatedValue "id" (VStr "none") (clearCorrelation "id" with_id).2
  = (Return (default_null (VStr "none")), (clearCorrelation "id" with_id).2)
  /\ hasCorrelation "id" (clearCorrelation "id" with_id).2
     = (Return false, (clearCorrelation "id" with_id).2)
  /\ forall other, other <> "id" ->
       (getCorrelatedValue other (VStr "none")
          (clearCorrelation "id" with_id).2).1
       = (getCorrelatedValue other (VStr "none") with_id).1
       /\ (hasCorrelation other (clearCorrelation "id" with_id).2).1
          = (hasCorrelation other with_id).1.
Proof.
  apply (clearCorrelation_forgets_one "id" (VStr "none") with_id);
    vm_compute; reflexivity.
Defined.

(** ** Templates *)

Lemma placeholders_from_no_brace s :
  includes "{" s = false -> placeholders_from None s = [].
Proof.
  induction s as [|c s IH]; [done|]. intros H. simpl.
  pose proof (includes_char_head _ _ _ H) as Hne.
  destruct (Ascii.eqb_spec c "{") as [->|_]; [done|].
  apply IH. by apply includes_cons in H.
Qed.

(** X20. A template without an opening brace needs no correlation: with no
    mapping given, [buildCorrelatedUrl] returns it unchanged and reads
    nothing from the store. *)
Theorem buildCorrelatedUrl_without_placeholders (urlTemplate : string)
    (s : State) :
  includes "{" urlTemplate = false ->
  buildCorrelatedUrl urlTemplate None s = (Return (Some urlTemplate), s).
Proof.
  intros H. unfold buildCorrelatedUrl, match_placeholders.
  by rewrite placeholders_from_no_brace.
Qed.

Lemma buildCorrelatedUrl_without_placeholders_witness :
  buildCorrelatedUrl "/api/users" None fresh = (Return (Some "/api/users"), fresh).
Proof.
  apply (buildCorrelatedUrl_without_placeholders "/api/users" fresh).
  reflexivity.
Defined.




(** ** One placeholder *)

Lemma placeholders_from_skip (pre rest : string) :
  includes "{" pre = false ->
  placeholders_from None (pre +:+ rest) = placeholders_from None rest.
Proof.
  induction pre as [|c pre IH]; [done|]. intros H. rewrite append_cons. simpl.
  pose proof (includes_char_head _ _ _ H) as Hne.
  destruct (Ascii.eqb_spec c "{") as [->|_]; [done|].
  apply IH. by apply includes_cons in H.
Qed.

Lemma placeholders_from_open (text key post : string) :
  includes "}" key = false ->
  text +:+ key <> "" ->
  placeholders_from (Some text) (key +:+ "}" +:+ post)
  = ("{" +:+ text +:+ key +:+ "}") :: placeholders_from None post.
Proof.
  revert text. induction key as [|c key IH]; intros text Hno Hne.
  - rewrite append_nil_l. simpl.
    destruct text as [|d text]; [done|]. reflexivity.
  - rewrite append_cons. simpl.
    pose proof (includes_char_head _ _ _ Hno) as Hc.
    destruct (Ascii.eqb_spec c "}") as [->|_]; [done|].
    rewrite IH.
    + by rewrite append_assoc.
    + by apply includes_cons in Hno.
    + rewrite append_assoc. simpl. by destruct text.
Qed.

(** X22. A template with a single placeholder [{key}], detected without a
    mapping, is completed with the text of the value stored under [key],
    provided that the key is not [__proto__] (under which the derived
    mapping receives no property), that the numbers of the value are safe
    integers (which print as their decimal digits) and that its text has
    no [$] ([String.prototype.replace] would read it as a pattern). *)
Theorem buildCorrelatedUrl_single_placeholder (pre key post : string)
    (s : State) (stored : Entry) :
  includes "{" pre = false ->
  includes "{" post = false ->
  key <> "" ->
  key <> "__proto__" ->
  includes "}" key = false ->
  correlationStore s !! key = Some stored ->
  is_nullish (value stored) = false ->
  safe (value stored) = true ->
  includes "$" (to_string (value stored)) = false ->
  buildCorrelatedUrl (pre +:+ "{" +:+ key +:+ "}" +:+ post) None s
  = (Return (Some (pre +:+ to_string (value stored) +:+ post)), s).
Proof.
  intros Hpre Hpost Hkey Hproto Hclose Hstored Hnn _ Hdollar.
  unfold buildCorrelatedUrl, match_placeholders.
  rewrite placeholders_from_skip by done.
  change ("{" +:+ key +:+ "}" +:+ post)
    with (String "{" (key +:+ "}" +:+ post)).
  change (placeholders_from None (String "{" (key +:+ "}" +:+ post)))
    with (placeholders_from (Some "") (key +:+ "}" +:+ post)).
  rewrite placeholders_from_open by (done || by rewrite append_nil_l).
  rewrite placeholders_from_no_brace by done.
  rewrite append_nil_l. simpl foldl.
  assert (Hslice : slice_1_m1 ("{" +:+ key +:+ "}") = key).
  { unfold slice_1_m1. rewrite append_cons. simpl string_drop.
    apply drop_last_append. }
  rewrite Hslice. unfold obj_set_primitive.
  destruct (String.eqb_spec key "__proto__") as [|_]; [done|].
  simpl obj_set. rewrite entries_singleton.
  simpl substitute. unfold bind at 1. rewrite getCorrelatedValue_run.
  rewrite (found_own _ _ _ _ Hstored), Hnn. unfold ret. do 2 f_equal.
  change ("{" +:+ key +:+ "}") with (String "{" (key +:+ "}")).
  replace (key +:+ "}" +:+ post) with ((key +:+ "}") +:+ post)
    by apply append_assoc.
  change (String "{" ((key +:+ "}") +:+ post))
    with (String "{" (key +:+ "}") +:+ post).
  f_equal. by apply replace_after_plain_prefix.
Qed.

Lemma buildCorrelatedUrl_single_placeholder_witness :
  buildCorrelatedUrl ("/users/" +:+ "{" +:+ "id" +:+ "}" +:+ "/orders") None
    with_id
  = (Return (Some ("/users/" +:+ to_string (value id_entry) +:+ "/orders")),
     with_id).
Proof.
  apply (buildCorrelatedUrl_single_placeholder "/users/" "id" "/orders"
           with_id id_entry);
    first [reflexivity | discriminate].
Defined.

(** ** Validation of required keys *)




(** ** Several extractions at once *)




End CorrelationManagerFacts.

(* ===================================================================== *)
(** * Properties of the response validator *)
(* ===================================================================== *)

Module ValidatorsFacts.
Import Validators ValidatorsSpec.
Local Open Scope Z_scope.

Import JsFacts.

(** ** What [check] does with predicates that return *)

Lemma run_checks_run (val : Response) tags (sets : Checks) (succ : bool)
    (s : State) :
  Forall (returns val) sets ->
  run_checks val tags sets succ s
  = (Return (succ && forallb (fun c => verdict val c.2) sets),
     {| businessErrors := businessErrors s;
        businessErrorRate := businessErrorRate s;
        checks := checks s ++
          map (fun c => mkCheckSample c.1 tags (verdict val c.2)) sets;
        console := console s |}).
Proof.
  revert succ s. induction sets as [|[name p] sets IH]; intros succ s Hall.
  - simpl. unfold ret. rewrite andb_true_r, app_nil_r. by destruct s.
  - apply Forall_cons in Hall as [[b Hb] Hall]. simpl in Hb. simpl.
    unfold verdict at 1 3. simpl. rewrite Hb.
    unfold bind, record_checks, modify. rewrite IH by done. simpl.
    by rewrite andb_assoc, <- app_assoc.
Qed.

(** [check] returns the conjunction of the predicates of the object, in
    whatever order they are enumerated, and touches neither metric. *)
Lemma check_run (val : Response) (sets : Checks) tags (s : State) :
  Forall (returns val) sets ->
  check val sets tags s
  = (Return (forallb (fun c => verdict val c.2) sets),
     {| businessErrors := businessErrors s;
        businessErrorRate := businessErrorRate s;
        checks := checks s ++
          map (fun c => mkCheckSample c.1 tags (verdict val c.2))
              (entries sets);
        console := console s |}).
Proof.
  intros Hall. unfold check. rewrite run_checks_run.
  - simpl. do 2 f_equal. apply forallb_perm, entries_perm.
  - by rewrite entries_perm.
Qed.

Lemma returns_total (val : Response) (k : string) (p : Response -> bool) :
  returns val (k, total p).
Proof. by exists (p val). Qed.

Lemma Forall_obj_set {A} (P : string * A -> Prop) k v o :
  P (k, v) -> Forall P o -> Forall P (obj_set k v o).
Proof.
  intros Hkv Ho. induction Ho as [|[k' v'] o Hhead Ho IH]; simpl.
  - by constructor.
  - destruct (String.eqb k k'); by constructor.
Qed.

Lemma Forall_foldl_obj_set {A B} (P : string * A -> Prop) (g : B -> string)
    (h : B -> A) (l : list B) (o : list (string * A)) :
  Forall (fun x => P (g x, h x)) l -> Forall P o ->
  Forall P (foldl (fun o x => obj_set (g x) (h x) o) o l).
Proof.
  intros Hl. revert o. induction Hl as [|x l Hx _ IH]; intros o Ho; [done|].
  simpl. apply IH. by apply Forall_obj_set.
Qed.

Lemma schema_checks_return (val : Response) apiName schema (o : Checks) :
  Forall (returns val) o ->
  Forall (returns val) (schema_checks apiName schema o).
Proof.
  intros Ho. unfold schema_checks. generalize (entries schema). intros l.
  assert (Hstart : Forall (returns val)
            (obj_set (apiName +:+ ": valid JSON response") (total valid_json)
                     o))
    by (apply Forall_obj_set; [apply returns_total|done]).
  revert Hstart.
  generalize (obj_set (apiName +:+ ": valid JSON response") (total valid_json)
                      o).
  induction l as [|[field expectedType] l IH]; intros o' Ho'; [done|].
  simpl. apply IH.
  destruct (truthy expectedType);
    repeat (apply Forall_obj_set; [apply returns_total|]); done.
Qed.

Ltac returning :=
  repeat first
    [ apply Forall_nil_2
    | apply Forall_cons_2
    | apply returns_total
    | apply schema_checks_return
    | apply Forall_obj_set
    | match goal with
      | |- Forall _ (if ?b then _ else _) => destruct b
      | |- Forall _ (match ?x with _ => _ end) => destruct x
      | |- Forall _ (foldl _ _ _) =>
          apply Forall_foldl_obj_set; [apply Forall_forall; intros ? _|]
      end ].

(** The predicates [validateResponse] builds itself return; the set
    returns as soon as the custom ones do. *)
Lemma built_checks_return (val : Response) (apiName : string)
    (config : Config) :
  customChecks_return config val ->
  Forall (returns val) (built_checks apiName config).
Proof.
  intros Hcustom. unfold built_checks. cbv zeta.
  unfold customChecks_return in Hcustom.
  destruct (customChecks config) as [custom|]; simpl in Hcustom.
  - apply Forall_foldl_obj_set.
    + rewrite entries_perm. eapply Forall_impl; [exact Hcustom|].
      by intros [k p] Hp.
    + clear Hcustom custom. returning.
  - returning.
Qed.


(** What [validateResponse] returns and leaves behind when every custom
    check returns. *)
Lemma validateResponse_full (response : Response) (config : Config)
    (s : State) (c : ascii) (name : string) :
  apiName config = Some (String c name) ->
  customChecks_return config response ->
  let outside :=
    bool_decide (status response < 200 \/ status response >= 300) in
  validateResponse response config s
  = (Return (forallb (fun ck => verdict response ck.2)
                     (built_checks (String c name) config)),
     {| businessErrors :=
          if outside then businessErrors s + 1 else businessErrors s;
        businessErrorRate :=
          businessErrorRate s ++ [if outside then 1 else 0];
        checks := checks s ++
          map (fun ck => mkCheckSample ck.1 [("api", String c name)]
                           (verdict response ck.2))
              (entries (built_checks (String c name) config));
        console := console s |}).
Proof.
  intros Hname Hcustom outside. subst outside.
  unfold validateResponse. rewrite Hname.
  change (check response ?sets [("api", String c name)])
    with (check response (built_checks (String c name) config)
            [("api", String c name)]).
  unfold bind at 1.
  rewrite check_run by (by apply built_checks_return).
  by destruct (bool_decide (status response < 200 \/ status response >= 300)).
Qed.

Lemma validateResponse_run (response : Response) (config : Config)
    (s : State) (c : ascii) (name : string) :
  apiName config = Some (String c name) ->
  customChecks_return config response ->
  (validateResponse response config s).1
  = Return (forallb (fun ck => verdict response ck.2)
                    (built_checks (String c name) config)).
Proof.
  intros Hname Hcustom.
  by rewrite (validateResponse_full _ _ _ c name Hname Hcustom).
Qed.

(** ** The configuration of the documentation *)

(** A 201 answered within five seconds passes; the business-error counter
    keeps its value and the rate receives a 0. *)
Lemma validateResponse_created_in_time (d : Z) (s : State) :
  d < 5000 ->
  validateResponse (created 201 d) create_user s
  = (Return true,
     {| businessErrors := businessErrors s;
        businessErrorRate := businessErrorRate s ++ [0];
        checks := checks s ++ create_user_samples true true;
        console := console s |}).
Proof.
  intros Hd. assert (E : (d <? 5000) = true) by lia.
  rewrite (validateResponse_full _ _ _ "C" "reate_User") by done.
  lazy -[Z.ltb]. rewrite E. reflexivity.
Qed.

(** A 500 fails, whatever its duration, and is counted as a business
    error: the counter is incremented and the rate receives a 1. *)
Lemma validateResponse_server_error (d : Z) (s : State) :
  validateResponse (created 500 d) create_user s
  = (Return false,
     {| businessErrors := businessErrors s + 1;
        businessErrorRate := businessErrorRate s ++ [1];
        checks := checks s ++ create_user_samples false (d <? 5000);
        console := console s |}).
Proof.
  rewrite (validateResponse_full _ _ _ "C" "reate_User") by done.
  lazy -[Z.ltb Z.add]. reflexivity.
Qed.

(** C7, evaluated on the code.  A 201 with body [{"id":"u1"}] that took
    five seconds is rejected: the ["response time < 5s"] predicate is one
    of the checks whose conjunction is returned, although the comment that
    introduces it says it is logged but not failed.  The business-error
    counter is left alone and the rate receives a 0. *)
Theorem validateResponse_created_slow :
  validateResponse (created 201 5000) create_user idle
  = (Return false,
     {| businessErrors := 0;
        businessErrorRate := [0];
        checks := create_user_samples true false;
        console := [] |}).
Proof. reflexivity. Qed.

(** C10. With a configuration whose [apiName] is missing (or empty),
    [validateResponse] logs an error and returns [false] at once: no check
    is recorded and neither business-error metric receives a sample. *)
Theorem validateResponse_requires_apiName (response : Response)
    (config : Config) (s : State) :
  apiName config = None \/ apiName config = Some "" ->
  validateResponse response config s
  = (Return false,
     {| businessErrors := businessErrors s;
        businessErrorRate := businessErrorRate s;
        checks := checks s;
        console := console s ++
          [(LError, "[VALIDATION] API name is required for validation")] |}).
Proof.
  intros [H | H]; unfold validateResponse; rewrite H; reflexivity.
Qed.

Lemma validateResponse_requires_apiName_witness :
  validateResponse (created 201 120) default_config idle
  = (Return false,
     {| businessErrors := 0; businessErrorRate := []; checks := [];
        console :=
          [(LError, "[VALIDATION] API name is required for validation")] |}).
Proof.
  apply (validateResponse_requires_apiName (created 201 120) default_config
           idle).
  left. reflexivity.
Defined.



(** ** What a verdict means *)

(** Two keys of one API differ as soon as what follows the colon differs
    in its first character. *)
Lemma key_differs (apiName : string) (c d : ascii) (x y : string) :
  c <> d ->
  apiName +:+ String ":" (String " " (String c x))
  <> apiName +:+ String ":" (String " " (String d y)).
Proof. intros Hne Heq. apply (inj (String.append apiName)) in Heq. congruence. Qed.

Lemma obj_get_schema_checks apiName schema k (o : Checks) :
  (forall c x, In c ["v"; "h"; "'"]%char ->
     k <> apiName +:+ String ":" (String " " (String c x))) ->
  obj_get k (schema_checks apiName schema o) = obj_get k o.
Proof.
  intros Hk. unfold schema_checks.
  generalize (entries schema). intros l.
  assert (Hstart : obj_get k
            (obj_set (apiName +:+ ": valid JSON response") (total valid_json)
                     o)
          = obj_get k o).
  { apply obj_get_set_ne. apply (Hk "v"%char). simpl. auto. }
  revert Hstart.
  generalize (obj_set (apiName +:+ ": valid JSON response") (total valid_json)
                      o).
  induction l as [|[field expectedType] l IH]; intros o' Ho'; [done|].
  simpl. apply IH.
  destruct (truthy expectedType).
  - rewrite !obj_get_set_ne; [done|..].
    + apply (Hk "h"%char). simpl. auto.
    + apply (Hk "'"%char). simpl. auto.
  - rewrite obj_get_set_ne; [done|]. apply (Hk "h"%char). simpl. auto.
Qed.

(** The status and response-time checks are not displaced by the body and
    schema checks, whose keys start differently. *)
Lemma built_checks_keeps (apiName : string) (config : Config) k p :
  customChecks config = None ->
  (forall c x, In c ["h"; "b"; "v"; "'"]%char ->
     k <> apiName +:+ String ":" (String " " (String c x))) ->
  obj_get k
    (obj_set (apiName +:+ ": response time < 5s")
       (total (fun r => (timings_duration r <? 5000)%Z))
       (match expectedStatuses config with
        | Some expectedStatuses =>
            obj_set (apiName +:+ ": status in ["
                     +:+ join "," (map pretty expectedStatuses) +:+ "]")
                    (total (fun r => bool_decide (status r ∈ expectedStatuses))) []
        | None =>
            obj_set (apiName +:+ ": status "
                     +:+ pretty (expectedStatus config))
                    (total (fun r => bool_decide (status r = expectedStatus config)))
                    []
        end)) = Some p ->
  obj_get k (built_checks apiName config) = Some p.
Proof.
  intros Hcustom Hk Hget. unfold built_checks. cbv zeta. rewrite Hcustom.
  assert (Hh : forall x, k <> apiName +:+ String ":" (String " " (String "h" x)))
    by (intros x; apply Hk; simpl; auto).
  assert (Hb : forall x, k <> apiName +:+ String ":" (String " " (String "b" x)))
    by (intros x; apply Hk; simpl; auto).
  destruct (jsonSchema config) as [schema|];
    [rewrite obj_get_schema_checks
       by (intros c x Hc; apply Hk; simpl in *; tauto)|].
  all: destruct (texts_given (bodyNotContains config));
    [rewrite obj_get_foldl by (intros x; apply Hb)|].
  all: destruct (texts_given (bodyContains config));
    [rewrite obj_get_foldl by (intros x; apply Hb)|].
  all: match goal with
       | |- context [if ?b then obj_set _ (total body_nonempty) _ else _] =>
           destruct b
       end;
    [rewrite obj_get_set_ne by apply Hh|]; exact Hget.
Qed.

(** X25. Without custom checks, a [validateResponse] that returns true
    means that the response took less than 5000 ms and that its status is
    the expected one (a member of [expectedStatuses] when that is given):
    no body or schema check can displace these two under their keys. *)
Theorem validateResponse_true_means (response : Response) (config : Config)
    (s : State) (c : ascii) (name : string) :
  apiName config = Some (String c name) ->
  customChecks config = None ->
  (validateResponse response config s).1 = Return true ->
  timings_duration response < 5000
  /\ match expectedStatuses config with
     | Some expectedStatuses => status response ∈ expectedStatuses
     | None => status response = expectedStatus config
     end.
Proof.
  intros Hname Hcustom Htrue.
  assert (Hret : customChecks_return config response)
    by (unfold customChecks_return; by rewrite Hcustom).
  rewrite (validateResponse_run _ _ _ c name Hname Hret) in Htrue.
  injection Htrue as Hall. rewrite forallb_forall in Hall.
  set (a := String c name) in *.
  assert (Hkeep : forall k p,
    (forall ch x, In ch ["h"; "b"; "v"; "'"]%char ->
       k <> a +:+ String ":" (String " " (String ch x))) ->
    obj_get k
      (obj_set (a +:+ ": response time < 5s")
         (total (fun r => (timings_duration r <? 5000)%Z))
         (match expectedStatuses config with
          | Some expectedStatuses =>
              obj_set (a +:+ ": status in ["
                       +:+ join "," (map pretty expectedStatuses) +:+ "]")
                      (total (fun r => bool_decide (status r ∈ expectedStatuses))) []
          | None =>
              obj_set (a +:+ ": status " +:+ pretty (expectedStatus config))
                      (total (fun r => bool_decide (status r = expectedStatus config)))
                      []
          end)) = Some p ->
    verdict response p = true).
  { intros k p Hk Hget.
    apply (Hall (k, p)), obj_get_In.
    by apply built_checks_keeps. }
  split.
  - apply Z.ltb_lt.
    apply (Hkeep (a +:+ ": response time < 5s")
                 (total (fun r => (timings_duration r <? 5000)%Z))).
    + intros ch x Hch. apply key_differs. simpl in Hch.
      intros Heq. subst ch. intuition discriminate.
    + apply obj_get_set_eq.
  - destruct (expectedStatuses config) as [expectedStatuses|].
    + apply (proj1 (bool_decide_eq_true _)).
      apply (Hkeep (a +:+ ": status in ["
                    +:+ join "," (map pretty expectedStatuses) +:+ "]")
                   (total (fun r => bool_decide (status r ∈ expectedStatuses)))).
      * intros ch x Hch. apply key_differs. simpl in Hch.
        intros Heq. subst ch. intuition discriminate.
      * rewrite obj_get_set_ne; [apply obj_get_set_eq|].
        by apply key_differs.
    + apply (proj1 (bool_decide_eq_true _)).
      apply (Hkeep (a +:+ ": status " +:+ pretty (expectedStatus config))
                   (total (fun r => bool_decide (status r = expectedStatus config)))).
      * intros ch x Hch. apply key_differs. simpl in Hch.
        intros Heq. subst ch. intuition discriminate.
      * rewrite obj_get_set_ne; [apply obj_get_set_eq|].
        by apply key_differs.
Qed.

Lemma validateResponse_true_means_witness :
  timings_duration (created 201 120) < 5000
  /\ match expectedStatuses create_user with
     | Some expectedStatuses => status (created 201 120) ∈ expectedStatuses
     | None => status (created 201 120) = expectedStatus create_user
     end.
Proof.
  apply (validateResponse_true_means (created 201 120) create_user idle
           "C" "reate_User");
    vm_compute; reflexivity.
Defined.



(** X26. Given a name and custom checks that return for the response (a
    custom check that throws makes [check], and with it [validateResponse],
    throw before either metric is written), [validateResponse] returns a
    verdict, writes nothing to the console, and counts a business error
    exactly when the status is outside [200, 300): the counter grows by
    one and the rate receives a 1 then, and the rate receives a 0
    otherwise, whatever the verdict and whatever status the configuration
    expects. *)
Theorem validateResponse_business_errors (response : Response)
    (config : Config) (s : State) (c : ascii) (name : string) :
  apiName config = Some (String c name) ->
  customChecks_return config response ->
  let outside :=
    bool_decide (status response < 200 \/ status response >= 300) in
  let s' := (validateResponse response config s).2 in
  businessErrors s' = businessErrors s + (if outside then 1 else 0)
  /\ businessErrorRate s'
     = businessErrorRate s ++ [if outside then 1 else 0]
  /\ console s' = console s
  /\ exists result, (validateResponse response config s).1 = Return result.
Proof.
  intros Hname Hcustom outside s'. subst s' outside.
  rewrite (validateResponse_full _ _ _ c name Hname Hcustom). simpl.
  destruct (bool_decide (status response < 200 \/ status response >= 300));
    repeat split; eauto; lia.
Qed.

Lemma validateResponse_business_errors_witness :
  businessErrors (validateResponse (created 404 120) create_user idle).2
  = businessErrors idle
    + (if bool_decide (status (created 404 120) < 200
                       \/ status (created 404 120) >= 300)
       then 1 else 0)
  /\ businessErrorRate (validateResponse (created 404 120) create_user idle).2
     = businessErrorRate idle
       ++ [if bool_decide (status (created 404 120) < 200
                           \/ status (created 404 120) >= 300)
           then 1 else 0]
  /\ console (validateResponse (created 404 120) create_user idle).2
     = console idle
  /\ exists result,
       (validateResponse (created 404 120) create_user idle).1
       = Return result.
Proof.
  apply (validateResponse_business_errors (created 404 120) create_user idle
           "C" "reate_User").
  - reflexivity.
  - exact I.
Defined.

(** A custom check that throws: the 500 is reported by an exception, the
    check is recorded as failed, and neither business metric receives a
    sample. *)
Example validateResponse_custom_check_throws :
  validateResponse server_error create_user_email idle
  = (Throw (TypeError "Cannot read property 'includes' of undefined"),
     {| businessErrors := 0;
        businessErrorRate := [];
        checks :=
          map (fun c => mkCheckSample c.1 [("api", "Create_User")] c.2)
              [("Create_User: status 201", false);
               ("Create_User: response time < 5s", true);
               ("Create_User: email format valid", false)];
        console := [] |}).
Proof. reflexivity. Qed.

(** X27. [validateStatusIn] returns whether the status is one of the
    acceptable ones, and counts a business error exactly when it is not
    (here, unlike in [validateResponse], an accepted 4xx is no error). *)
Theorem validateStatusIn_counts_rejections (response : Response)
    (acceptableStatuses : list Z) (name : string) (s : State) :
  let accepted := bool_decide (status response ∈ acceptableStatuses) in
  let s' := (validateStatusIn response acceptableStatuses name s).2 in
  (validateStatusIn response acceptableStatuses name s).1 = Return accepted
  /\ businessErrors s' = businessErrors s + (if accepted then 0 else 1)
  /\ businessErrorRate s'
     = businessErrorRate s ++ [if accepted then 0 else 1].
Proof.
  intros accepted s'. subst s' accepted.
  remember (validateStatusIn response acceptableStatuses name s) as out
    eqn:Hout.
  revert Hout. unfold validateStatusIn, bind at 1.
  rewrite check_run by returning. unfold verdict, total. simpl.
  destruct (bool_decide (status response ∈ acceptableStatuses)) eqn:E;
    unfold bind, businessErrors_add, businessErrorRate_add, modify, ret;
    simpl; intros ->; simpl; rewrite ?E; repeat split; first [done | lia].
Qed.

(** ** Field checks *)

(** On an ordinary field name, presence is a matter of the own properties
    of the body. *)
Lemma field_present_ordinary (field : string) (response : Response) :
  ordinary field = true ->
  field_present field response = holds_field field response.
Proof.
  intros [Hobj Harr]%andb_true_iff.
  apply negb_true_iff in Hobj, Harr.
  unfold field_present, holds_field, has_prop, inherits.
  destruct (json response) as [v|]; [|done].
  destruct v as [| | | | |items|fields]; try done; rewrite Hobj, ?Harr.
  - by destruct (own_prop (VArr items) field).
  - by destruct (own_prop (VObj fields) field).
Qed.

(** X28. For required fields whose names are ordinary (no member of
    [Object.prototype] or [Array.prototype], which a JSON value has
    without holding it), [validateJsonFields] returns true exactly when
    every required field is present in the JSON body with a value other
    than [null] and [undefined], a field listed twice counting once; it
    touches neither business metric. *)
Theorem validateJsonFields_result (response : Response)
    (requiredFields : list string) (name : string) (s : State) :
  Forall (fun field => ordinary field = true) requiredFields ->
  let s' := (validateJsonFields response requiredFields name s).2 in
  (validateJsonFields response requiredFields name s).1
  = Return (forallb (fun field => holds_field field response)
                    requiredFields)
  /\ businessErrors s' = businessErrors s
  /\ businessErrorRate s' = businessErrorRate s.
Proof.
  intros Hord. unfold validateJsonFields. rewrite check_run by returning.
  simpl. split; [|done]. f_equal.
  rewrite (forallb_foldl_obj_set
             (fun field => name +:+ ": has field '" +:+ field +:+ "'")
             (fun field => total (field_present field))
             (verdict response)).
  - induction Hord as [|field fields Hfield _ IH]; [done|].
    simpl. rewrite <- IH. f_equal.
    by apply field_present_ordinary.
  - intros x y Heq. apply (inj (String.append name)) in Heq.
    apply (inj (String.append ": has field '")) in Heq.
    by apply append_quote_inj.
Qed.

Lemma validateJsonFields_result_witness :
  (validateJsonFields (created 201 120) ["id"; "email"] "Create_User" idle).1
  = Return (forallb (fun field => holds_field field (created 201 120))
                    ["id"; "email"])
  /\ businessErrors
       (validateJsonFields (created 201 120) ["id"; "email"] "Create_User"
          idle).2
     = businessErrors idle
  /\ businessErrorRate
       (validateJsonFields (created 201 120) ["id"; "email"] "Create_User"
          idle).2
     = businessErrorRate idle.
Proof.
  apply (validateJsonFields_result (created 201 120) ["id"; "email"]
           "Create_User" idle).
  repeat constructor.
Defined.

(** ** Batches *)

Lemma validateStatusCode_run response expectedStatus name s :
  validateStatusCode response expectedStatus name s
  = (Return (bool_decide (status response = expectedStatus)),
     {| businessErrors := businessErrors s;
        businessErrorRate := businessErrorRate s;
        checks := checks s ++
          [mkCheckSample (name +:+ ": status " +:+ pretty expectedStatus)
             [("api", name)] (bool_decide (status response = expectedStatus))];
        console := console s |}).
Proof.
  unfold validateStatusCode. rewrite check_run by returning. simpl.
  rewrite andb_true_r. unfold entries, is_index_key. simpl.
  by destruct (array_index _).
Qed.

Lemma validateResponseTime_run response maxDuration name s :
  validateResponseTime response maxDuration name s
  = (Return (timings_duration response <? maxDuration),
     {| businessErrors := businessErrors s;
        businessErrorRate := businessErrorRate s;
        checks := checks s ++
          [mkCheckSample
             (name +:+ ": response time < " +:+ pretty maxDuration +:+ "ms")
             [("api", name)] (timings_duration response <? maxDuration)];
        console := console s |}).
Proof.
  unfold validateResponseTime. rewrite check_run by returning. simpl.
  rewrite andb_true_r. unfold entries, is_index_key. simpl.
  by destruct (array_index _).
Qed.

Lemma validateJsonFields_one response field name s :
  validateJsonFields response [field] name s
  = (Return (field_present field response),
     {| businessErrors := businessErrors s;
        businessErrorRate := businessErrorRate s;
        checks := checks s ++
          [mkCheckSample (name +:+ ": has field '" +:+ field +:+ "'")
             [("api", name)] (field_present field response)];
        console := console s |}).
Proof.
  unfold validateJsonFields. rewrite check_run by returning. simpl.
  rewrite andb_true_r. unfold entries, is_index_key. simpl.
  by destruct (array_index _).
Qed.

Lemma batch_loop_run response name validations allPassed s :
  Forall ordinary_validation validations ->
  let s' := (batch_loop response name validations allPassed s).2 in
  (batch_loop response name validations allPassed s).1
  = Return (allPassed && forallb (passes response) validations)
  /\ businessErrors s' = businessErrors s
  /\ businessErrorRate s' = businessErrorRate s
  /\ length (checks s')
     = (length (checks s) + length (List.filter known validations))%nat.
Proof.
  intros Hord. revert allPassed s.
  induction Hord as [|validation rest Hhead _ IH]; intros allPassed s.
  - simpl. rewrite andb_true_r. unfold ret. simpl. repeat split; lia.
  - cbn [batch_loop forallb List.filter]. unfold bind.
    destruct validation as [value|value|value|type]; cbn [passes known].
    + rewrite validateStatusCode_run.
      match goal with
      | |- context [batch_loop _ _ _ ?f ?s1] =>
          destruct (IH f s1) as (-> & -> & -> & ->)
      end.
      cbn [businessErrors businessErrorRate checks].
      rewrite length_app. cbn [length].
      repeat split; try lia.
      by destruct (bool_decide _), allPassed.
    + rewrite validateJsonFields_one, (field_present_ordinary _ _ Hhead).
      match goal with
      | |- context [batch_loop _ _ _ ?f ?s1] =>
          destruct (IH f s1) as (-> & -> & -> & ->)
      end.
      cbn [businessErrors businessErrorRate checks].
      rewrite length_app. cbn [length].
      repeat split; try lia.
      by destruct (holds_field _ _), allPassed.
    + rewrite validateResponseTime_run.
      match goal with
      | |- context [batch_loop _ _ _ ?f ?s1] =>
          destruct (IH f s1) as (-> & -> & -> & ->)
      end.
      cbn [businessErrors businessErrorRate checks].
      rewrite length_app. cbn [length].
      repeat split; try lia.
      by destruct (_ <? _), allPassed.
    + unfold ret.
      destruct (IH false s) as (-> & -> & -> & ->).
      repeat split; try lia. by rewrite andb_false_r.
Qed.


(** X29. For validations whose field names are ordinary,
    [batchValidate] returns true exactly when every validation of the list
    passes (the status is the given one, the body holds the field with a
    value other than [null] and [undefined], the duration is below the
    limit), a validation of an unknown [type] counting as failed; it does
    not stop at the first failure (every validation of a known type
    records its check) and touches neither business metric. *)
Theorem batchValidate_result (response : Response) (name : string)
    (validations : list Validation) (s : State) :
  Forall ordinary_validation validations ->
  let s' := (batchValidate response name validations s).2 in
  (batchValidate response name validations s).1
  = Return (forallb (passes response) validations)
  /\ businessErrors s' = businessErrors s
  /\ businessErrorRate s' = businessErrorRate s
  /\ length (checks s')
     = (length (checks s) + length (List.filter known validations))%nat.
Proof.
  intros Hord. apply (batch_loop_run response name validations true s Hord).
Qed.

Lemma batchValidate_result_witness :
  (batchValidate (created 201 120) "Create_User" documented_batch idle).1
  = Return (forallb (passes (created 201 120)) documented_batch)
  /\ businessErrors
       (batchValidate (created 201 120) "Create_User" documented_batch
          idle).2
     = businessErrors idle
  /\ businessErrorRate
       (batchValidate (created 201 120) "Create_User" documented_batch
          idle).2
     = businessErrorRate idle
  /\ length (checks (batchValidate (created 201 120) "Create_User"
                       documented_batch idle).2)
     = (length (checks idle)
        + length (List.filter known documented_batch))%nat.
Proof.
  apply (batchValidate_result (created 201 120) "Create_User"
           documented_batch idle).
  repeat constructor.
Defined.

End ValidatorsFacts.

(* ===================================================================== *)
(** * Properties of the error log *)
(* ===================================================================== *)

Module ErrorLoggerFacts.
Import ErrorLogger ErrorLoggerSpec.
Local Open Scope Z_scope.

Lemma filter_snoc {A} (f : A -> bool) (l : list A) (x : A) :
  List.filter f (l ++ [x])
  = List.filter f l ++ (if f x then [x] else []).
Proof.
  induction l as [|y l IH]; simpl; [by destruct (f x)|].
  rewrite IH. by destruct (f y).
Qed.

(** What a call that gets as far as [errorLog.push] leaves behind. *)
Lemma push_filed (entry : ErrorEntry) (apiName : string) (s : State)
    (msg : string) :
  obj_get "apiName" entry = Some (VStr apiName) ->
  let s' := {| errorLog := errorLog s ++ [entry]; clock := clock s;
               console := console s ++ [(LError, msg)] |} in
  (getErrorCount s').1 = Return (Z.of_nat (length (errorLog s)) + 1)
  /\ (getErrorsByApi apiName s').1
     = Return (List.filter (filed_under apiName) (errorLog s) ++ [entry])
  /\ forall other, other <> apiName ->
       (getErrorsByApi other s').1 = (getErrorsByApi other s).1.
Proof.
  intros Hname. unfold getErrorCount, getErrorsByApi, gets. simpl.
  repeat split.
  - f_equal. rewrite length_app. simpl. lia.
  - f_equal. rewrite filter_snoc. unfold filed_under at 2. rewrite Hname.
    by rewrite String.eqb_refl.
  - intros other Hne. f_equal. rewrite filter_snoc.
    unfold filed_under at 2. rewrite Hname.
    destruct (String.eqb_spec apiName other) as [->|_]; [done|].
    by rewrite app_nil_r.
Qed.

(** X30. Every logging call either files exactly one entry under the
    name of its API, or leaves no trace: [logError], [logErrorWithInput]
    and [logCorrelationFailure] always return, and so does
    [logValidationFailure] when it is given a response; [getErrorCount]
    has then grown by one, [getErrorsByApi] of the reported name has
    gained the new entry at its end, [getErrorsByApi] of any other name
    is unchanged, and one frame was written to the console.  Without a
    response, [logValidationFailure] throws a [TypeError] before it
    writes to the console or to the log. *)
Theorem log_call_files_one_entry_or_throws (host : Host) (call : LogCall)
    (s : State) :
  let s' := (run_call host call s).2 in
  if lacks_response call
  then exists message, run_call host call s = (Throw (TypeError message), s)
  else (run_call host call s).1 = Return tt
       /\ (exists entry frame,
             errorLog s' = errorLog s ++ [entry]
             /\ console s' = console s ++ [(LError, frame)]
             /\ (getErrorsByApi (reported_api call) s').1
                = Return (List.filter (filed_under (reported_api call))
                                      (errorLog s) ++ [entry]))
       /\ (getErrorCount s').1
          = Return (Z.of_nat (length (errorLog s)) + 1)
       /\ forall other, other <> reported_api call ->
            (getErrorsByApi other s').1 = (getErrorsByApi other s).1.
Proof.
  destruct call as [api response inputData ctx|api response inputParams
                   |api missing inputData|api message [r|]];
    cbn [lacks_response run_call reported_api];
    unfold logErrorWithInput, logError, logCorrelationFailure,
      logValidationFailure, timestamp_now, bind, gets, ret, log, push,
      modify, throw;
    cbn [fst snd errorLog console clock];
    try (destruct s; by eexists).
  all: match goal with
       | |- context [errorLog ?s ++ [?e]] =>
           match goal with
           | |- context [console ?s ++ [(LError, ?m)]] =>
               destruct (push_filed e api s m eq_refl) as (Hcount & Hby & Hoth)
           end
       end;
    split; [done|]; split; [by eexists _, _|]; by split.
Qed.

(** After [clearErrorLog] nothing is counted and nothing is filed. *)
Lemma clearErrorLog_empties (apiName : string) (s : State) :
  (getErrorCount (clearErrorLog s).2).1 = Return 0
  /\ (getErrorsByApi apiName (clearErrorLog s).2).1 = Return [].
Proof. done. Qed.

End ErrorLoggerFacts.
